(** * Editing history of the notebook application (src/App.tsx)

    A shallow embedding of the undo/redo history manager and the debounced
    typing session of the [App] component: the per-note history map, the
    single typing-timer slot, the handlers [saveToHistory],
    [handleTextChange], [handleUndo], [handleRedo], [handleDeleteNote],
    the keyboard-shortcut listener and the effect that resets the typing
    timer when the selected note changes.

    Conventions of the embedding.
    - A JavaScript string is a [string]; one character stands for one
      UTF-16 code unit.
    - [Record<string, HistoryState>] is a [gmap string HistoryState].
    - React state ([notes], [selectedNoteId], [history]) and the ref
      [typingTimeoutRef] are the fields of [AppState]. A handler runs on
      the state of the latest render and its state updates are committed
      before the next event is handled, so a handler is a function from
      state to state.
    - [Date.now()] is the argument [now] (milliseconds) of a handler.
    - The browser's table of pending timeouts is the field [timers]: a
      list of (handle, deadline). Handles are positive numbers, hence
      truthy, as the handles returned by [setTimeout] in a browser are.
      Every timeout the component schedules has the same callback,
      [typingTimeoutRef.current = null]. *)

From stdpp Require Import gmap strings list sorting.
From Stdlib Require Import ZArith Lia.
From Stdlib Require OrderedTypeEx.

(** ** Data model (src/types.ts, src/App.tsx) *)

Module Note.
(** [interface Note] of src/types.ts. *)
Record t := mk {
  id : string;
  title : string;
  content : string;
  excerpt : string;
  updatedAt : Z;
  createdAt : Z;
  isFavorite : bool
}.
End Note.

(** [interface NoteSnapshot]. *)
Record NoteSnapshot := mkSnapshot {
  title : string;
  content : string
}.

(** [interface HistoryState]: [past] oldest first, [future] soonest redo first. *)
Record HistoryState := mkHistory {
  past : list NoteSnapshot;
  future : list NoteSnapshot
}.

(** [Partial<Note>] restricted to the fields the handlers pass; an absent
    field is [None]. *)
Record NoteUpdates := mkUpdates {
  u_title : option string;
  u_content : option string;
  u_excerpt : option string;
  u_isFavorite : option bool
}.

Record AppState := mkApp {
  notes : list Note.t;
  selectedNoteId : option string;
  history : gmap string HistoryState;
  typingTimeoutRef : option positive;
  timers : list (positive * Z);
  nextTimer : positive
}.

(** The first argument of [handleTextChange]. *)
Inductive FieldKey := KTitle | KContent.

(** The fields of a [KeyboardEvent] that [handleKeyDown] reads. *)
Record KeyboardEvent := mkKey {
  metaKey : bool;
  ctrlKey : bool;
  shiftKey : bool;
  key : string
}.

(** The quiet interval of the typing session, in milliseconds. *)
Definition QUIET_INTERVAL : Z := 1000.

(** ** State setters *)

Definition setNotes (f : list Note.t -> list Note.t) (st : AppState) : AppState :=
  mkApp (f (notes st)) (selectedNoteId st) (history st)
        (typingTimeoutRef st) (timers st) (nextTimer st).

Definition setHistory (f : gmap string HistoryState -> gmap string HistoryState)
    (st : AppState) : AppState :=
  mkApp (notes st) (selectedNoteId st) (f (history st))
        (typingTimeoutRef st) (timers st) (nextTimer st).

Definition setTypingTimeoutRef (r : option positive) (st : AppState) : AppState :=
  mkApp (notes st) (selectedNoteId st) (history st) r (timers st) (nextTimer st).

(** ** Timers *)

(** [clearTimeout(h)]: the timeout [h] is no longer pending. *)
Definition clearTimeout (h : positive) (st : AppState) : AppState :=
  mkApp (notes st) (selectedNoteId st) (history st) (typingTimeoutRef st)
        (filter (fun p => p.1 <> h) (timers st)) (nextTimer st).

(** [setTimeout(cb, delay)] at time [now]: a fresh handle, pending until
    [now + delay]. *)
Definition setTimeout (delay now : Z) (st : AppState) : positive * AppState :=
  (nextTimer st,
   mkApp (notes st) (selectedNoteId st) (history st) (typingTimeoutRef st)
         (timers st ++ [(nextTimer st, (now + delay)%Z)]) (Pos.succ (nextTimer st))).

(** The timeouts whose deadline has been reached at time [now] fire: each
    leaves the table and runs its callback, which sets the ref to null. *)
Definition fireTimers (now : Z) (st : AppState) : AppState :=
  match filter (fun p => (p.2 <= now)%Z) (timers st) with
  | [] => st
  | _ :: _ =>
      mkApp (notes st) (selectedNoteId st) (history st) None
            (filter (fun p => (now < p.2)%Z) (timers st)) (nextTimer st)
  end.

(** The effect on [selectedNoteId] (App.tsx, "Reset typing timer when
    switching notes"). *)
Definition resetTypingTimer (st : AppState) : AppState :=
  match typingTimeoutRef st with
  | Some h => setTypingTimeoutRef None (clearTimeout h st)
  | None => st
  end.

(** [setSelectedNoteId(v)]: React keeps the state when the value is the
    same; otherwise the component renders again and the effect that
    depends on [selectedNoteId] runs. *)
Definition setSelectedNoteId (v : option string) (st : AppState) : AppState :=
  if decide (selectedNoteId st = v) then st
  else resetTypingTimer
         (mkApp (notes st) v (history st) (typingTimeoutRef st) (timers st) (nextTimer st)).

(** ** Computed values *)

(** Truthiness of [selectedNoteId]: null and the empty string are falsy. *)
Definition truthyId (v : option string) : bool :=
  match v with
  | Some s => negb (bool_decide (s = ""))
  | None => false
  end.

(** [notes.find(n => n.id === selectedNoteId) || null]. *)
Definition selectedNote (st : AppState) : option Note.t :=
  match selectedNoteId st with
  | Some i => List.find (fun n => bool_decide (Note.id n = i)) (notes st)
  | None => None
  end.

(** [sel ? (hist[sel]?.past.length > 0) : false]. *)
Definition canUndoOf (hist : gmap string HistoryState) (sel : option string) : bool :=
  if truthyId sel then
    match sel with
    | Some i =>
        match hist !! i with
        | Some h => bool_decide (0 < length (past h))
        | None => false
        end
    | None => false
    end
  else false.

Definition canRedoOf (hist : gmap string HistoryState) (sel : option string) : bool :=
  if truthyId sel then
    match sel with
    | Some i =>
        match hist !! i with
        | Some h => bool_decide (0 < length (future h))
        | None => false
        end
    | None => false
    end
  else false.

Definition canUndo (st : AppState) : bool := canUndoOf (history st) (selectedNoteId st).
Definition canRedo (st : AppState) : bool := canRedoOf (history st) (selectedNoteId st).

(** ** Handlers *)

(** [{ ...n, ...updates, updatedAt: Date.now() }]. *)
Definition applyUpdates (n : Note.t) (u : NoteUpdates) (now : Z) : Note.t :=
  Note.mk (Note.id n)
          (default (Note.title n) (u_title u))
          (default (Note.content n) (u_content u))
          (default (Note.excerpt n) (u_excerpt u))
          now
          (Note.createdAt n)
          (default (Note.isFavorite n) (u_isFavorite u)).

(** "Core update function (does NOT handle history)". *)
Definition updateNoteState (i : string) (u : NoteUpdates) (now : Z) (st : AppState) : AppState :=
  setNotes (map (fun n => if bool_decide (Note.id n = i) then applyUpdates n u now else n)) st.

Definition snapshotOf (n : Note.t) : NoteSnapshot :=
  mkSnapshot (Note.title n) (Note.content n).

(** "Helper to push current state to history before modification". *)
Definition saveToHistory (note : Note.t) (st : AppState) : AppState :=
  setHistory (fun prev =>
    let noteHistory := default (mkHistory [] []) (prev !! Note.id note) in
    <[Note.id note := mkHistory (past noteHistory ++ [snapshotOf note]) []]> prev) st.

(** [value.substring(0, 100)]. *)
Definition substring_0_100 (value : string) : string := String.substring 0 100 value.

(** [{ [key]: value,
      excerpt: key === 'content' ? value.substring(0, 100) : selectedNote.excerpt }]. *)
Definition textUpdates (k : FieldKey) (value : string) (sn : Note.t) : NoteUpdates :=
  match k with
  | KTitle => mkUpdates (Some value) None (Some (Note.excerpt sn)) None
  | KContent => mkUpdates None (Some value) (Some (substring_0_100 value)) None
  end.

(** "Handler for input changes (Title/Content) with Debounced History". *)
Definition handleTextChange (k : FieldKey) (value : string) (now : Z) (st : AppState) : AppState :=
  match selectedNote st with
  | None => st
  | Some sn =>
      let st1 := match typingTimeoutRef st with
                 | None => saveToHistory sn st
                 | Some _ => st
                 end in
      let st2 := match typingTimeoutRef st1 with
                 | Some h => clearTimeout h st1
                 | None => st1
                 end in
      let '(h, st3) := setTimeout QUIET_INTERVAL now st2 in
      let st4 := setTypingTimeoutRef (Some h) st3 in
      updateNoteState (Note.id sn) (textUpdates k value sn) now st4
  end.

Definition handleUndo (now : Z) (st : AppState) : AppState :=
  match selectedNote st with
  | None => st
  | Some sn =>
      match history st !! Note.id sn with
      | None => st
      | Some noteHistory =>
          if bool_decide (length (past noteHistory) = 0) then st else
          match past noteHistory !! (length (past noteHistory) - 1) with
          | None => st
          | Some previous =>
              let newPast := take (length (past noteHistory) - 1) (past noteHistory) in
              let currentSnapshot := snapshotOf sn in
              updateNoteState (Note.id sn)
                (mkUpdates (Some (title previous)) (Some (content previous)) None None) now
                (setHistory
                   <[Note.id sn := mkHistory newPast (currentSnapshot :: future noteHistory)]>
                   st)
          end
      end
  end.

Definition handleRedo (now : Z) (st : AppState) : AppState :=
  match selectedNote st with
  | None => st
  | Some sn =>
      match history st !! Note.id sn with
      | None => st
      | Some noteHistory =>
          if bool_decide (length (future noteHistory) = 0) then st else
          match future noteHistory !! 0 with
          | None => st
          | Some next =>
              let newFuture := drop 1 (future noteHistory) in
              let currentSnapshot := snapshotOf sn in
              updateNoteState (Note.id sn)
                (mkUpdates (Some (title next)) (Some (content next)) None None) now
                (setHistory
                   <[Note.id sn := mkHistory (past noteHistory ++ [currentSnapshot]) newFuture]>
                   st)
          end
      end
  end.

(** [handleDeleteNote]; [confirmed] is the answer of [window.confirm]. *)
Definition handleDeleteNote (confirmed : bool) (i : string) (st : AppState) : AppState :=
  if confirmed then
    let st1 := setNotes (filter (fun n => Note.id n <> i)) st in
    let st2 := if decide (selectedNoteId st = Some i)
               then setSelectedNoteId None st1 else st1 in
    setHistory (delete i) st2
  else st.

(** The keydown listener of the "Keyboard Shortcuts for Undo/Redo" effect.
    The boolean tells whether [e.preventDefault()] was called. *)
Definition handleKeyDown (e : KeyboardEvent) (now : Z) (st : AppState) : bool * AppState :=
  if negb (truthyId (selectedNoteId st)) then (false, st)
  else if (metaKey e || ctrlKey e) && bool_decide (key e = "z") then
    if shiftKey e then (true, handleRedo now st) else (true, handleUndo now st)
  else if (metaKey e || ctrlKey e) && bool_decide (key e = "y") then
    (true, handleRedo now st)
  else (false, st).

(** The title and the excerpt of a new note, the UTF-8 bytes of the
    literals of the source. *)
Definition NEW_NOTE_TITLE : string := "新笔记".
Definition NEW_NOTE_EXCERPT : string := "无额外内容".

(** [handleCreateNote]; [newId] is the value of [generateId()]. *)
Definition handleCreateNote (newId : string) (now : Z) (st : AppState) : AppState :=
  let newNote := Note.mk newId NEW_NOTE_TITLE "" NEW_NOTE_EXCERPT now now false in
  setSelectedNoteId (Some newId) (setNotes (cons newNote) st).

(** ** Events

    The component is driven by discrete events on one thread. An event
    arrives at a time [t]; the timeouts that are due at [t] have fired
    before its handler runs. *)

Inductive Event :=
| TextChange (k : FieldKey) (value : string)
| Undo
| Redo
| SelectNote (v : option string)
| DeleteNote (confirmed : bool) (i : string)
| CreateNote (newId : string)
| KeyDown (e : KeyboardEvent).

Definition handle (ev : Event) (now : Z) (st : AppState) : AppState :=
  match ev with
  | TextChange k value => handleTextChange k value now st
  | Undo => handleUndo now st
  | Redo => handleRedo now st
  | SelectNote v => setSelectedNoteId v st
  | DeleteNote confirmed i => handleDeleteNote confirmed i st
  | CreateNote newId => handleCreateNote newId now st
  | KeyDown e => (handleKeyDown e now st).2
  end.

Definition step (st : AppState) (tev : Z * Event) : AppState :=
  handle tev.2 tev.1 (fireTimers tev.1 st).

Definition run (evs : list (Z * Event)) (st : AppState) : AppState :=
  foldl step st evs.

(** The history record of a note, [{ past: [], future: [] }] when absent. *)
Definition getHistory (i : string) (st : AppState) : HistoryState :=
  default (mkHistory [] []) (history st !! i).

(** ** Properties of states and runs *)

(** What a note may differ in after a snapshot has been applied to it:
    everything but [title], [content] and [updatedAt] is kept. *)
Definition keepsDerivedFields (m m' : Note.t) : Prop :=
  Note.id m' = Note.id m /\ Note.excerpt m' = Note.excerpt m /\
  Note.createdAt m' = Note.createdAt m /\ Note.isFavorite m' = Note.isFavorite m.

(** What applying a snapshot to the note selected by [sel] may do to a
    note: nothing, or, when it is the selected one, a change that keeps
    the derived fields. *)
Definition touchedBy (sel : option string) (m m' : Note.t) : Prop :=
  m' = m \/ (sel = Some (Note.id m) /\ keepsDerivedFields m m').

(** The timer slot and the table of pending timeouts agree: the slot is
    null and nothing is pending, or the slot holds the one pending timeout. *)
Definition timerInv (st : AppState) : Prop :=
  match typingTimeoutRef st with
  | None => timers st = []
  | Some t => exists d, timers st = [(t, d)]
  end.

(** A typing session started or continued at time [t] is pending. *)
Definition inSession (st : AppState) (t : Z) : Prop :=
  exists h, typingTimeoutRef st = Some h /\ timers st = [(h, (t + QUIET_INTERVAL)%Z)].

(** A run of edits, each with its time of arrival. *)
Definition editEvents (edits : list (Z * FieldKey * string)) : list (Z * Event) :=
  map (fun e => (e.1.1, TextChange e.1.2 e.2)) edits.

(** Every edit of [ts] arrives less than the quiet interval after the one
    before it, the first of them after [t]. *)
Fixpoint gapsUnder (t : Z) (ts : list Z) : Prop :=
  match ts with
  | [] => True
  | t' :: ts' => (t' - t < QUIET_INTERVAL)%Z /\ gapsUnder t' ts'
  end.

(** ** States for the examples *)

(** The document of the specification's scenario, with an empty history. *)
Definition doc1 : Note.t := Note.mk "doc1" "T" "C" "C" 0 0 false.
Definition scenario0 : AppState := mkApp [doc1] (Some "doc1") ∅ None [] 1.

(** The state of the specification's scenario after the first edit. *)
Definition scenario_edited : AppState :=
  run [(10%Z, TextChange KContent "C1")] scenario0.

(** A state for the examples: note [doc1] selected, one snapshot to undo
    and one to redo. *)
Definition scenario_mid_note : Note.t := Note.mk "doc1" "T" "C1" "C1" 10 0 false.
Definition scenario_mid_record : HistoryState :=
  mkHistory [mkSnapshot "T" "C"] [mkSnapshot "T" "C2"].
Definition scenario_mid : AppState :=
  mkApp [scenario_mid_note] (Some "doc1") {[ "doc1" := scenario_mid_record ]} None [] 1.

(** A state in which nothing can be undone or redone: the selected note
    has no history record. *)
Definition scenario_idle : AppState := mkApp [doc1] (Some "doc1") ∅ None [] 1.

(** A state with a typing session pending on [doc1] and a second note. *)
Definition scenario_two : AppState :=
  mkApp [Note.mk "doc1" "T" "C1" "C1" 10 0 false; Note.mk "doc2" "U" "D" "D" 0 0 false]
        (Some "doc1")
        {[ "doc1" := mkHistory [mkSnapshot "T" "C"] [] ]}
        (Some 1%positive) [(1%positive, 1010%Z)] 2.

(** ** Sorting and searching (JavaScript built-ins)

    [String.prototype.trim] and [String.prototype.toLowerCase] are
    arguments [trim] and [toLowerCase] of the functions that call them.
    [Array.prototype.sort] is a stable sort: an element goes before the
    first element that it does not have to follow. *)

(** [s.includes(q)]. *)
Fixpoint includes (s q : string) : bool :=
  String.prefix q s ||
  match s with
  | EmptyString => false
  | String _ s' => includes s' q
  end.

Fixpoint sortInsert {A} (cmp : A -> A -> Z) (x : A) (l : list A) : list A :=
  match l with
  | [] => [x]
  | y :: l' => if (cmp x y <=? 0)%Z then x :: y :: l' else y :: sortInsert cmp x l'
  end.

(** [l.sort(cmp)], on a copy of [l]. *)
Fixpoint Array_sort {A} (cmp : A -> A -> Z) (l : list A) : list A :=
  match l with
  | [] => []
  | x :: l' => sortInsert cmp x (Array_sort cmp l')
  end.

(** ** Todos (src/types.ts, src/App.tsx) *)

Module Todo.
(** [interface Todo] of src/types.ts. *)
Record t := mk {
  id : string;
  text : string;
  completed : bool;
  createdAt : Z;
  updatedAt : Z
}.
End Todo.

(** The React state [todos] and [newTodoText]. *)
Record TodoState := mkTodos {
  todos : list Todo.t;
  newTodoText : string
}.

(** [handleAddTodo]; [newId] is the value of [generateId()]. *)
Definition handleAddTodo (trim : string -> string) (newId : string) (now : Z)
    (ts : TodoState) : TodoState :=
  if bool_decide (trim (newTodoText ts) = "") then ts
  else mkTodos (Todo.mk newId (trim (newTodoText ts)) false now now :: todos ts) "".

Definition handleToggleTodo (i : string) (now : Z) (ts : TodoState) : TodoState :=
  mkTodos (map (fun t => if bool_decide (Todo.id t = i)
                         then Todo.mk (Todo.id t) (Todo.text t) (negb (Todo.completed t))
                                      (Todo.createdAt t) now
                         else t) (todos ts))
          (newTodoText ts).

Definition handleDeleteTodo (i : string) (ts : TodoState) : TodoState :=
  mkTodos (List.filter (fun t => negb (bool_decide (Todo.id t = i))) (todos ts))
          (newTodoText ts).

(** [handleClearCompletedTodos]; [confirmed] is the answer of [window.confirm]. *)
Definition handleClearCompletedTodos (confirmed : bool) (ts : TodoState) : TodoState :=
  if confirmed then
    mkTodos (List.filter (fun t => negb (Todo.completed t)) (todos ts)) (newTodoText ts)
  else ts.

(** The comparator of [filteredTodos]: "Sort by updatedAt descending, but
    show incomplete todos first". *)
Definition compareTodos (a b : Todo.t) : Z :=
  if negb (Bool.eqb (Todo.completed a) (Todo.completed b)) then
    if Todo.completed a then 1%Z else (-1)%Z
  else (Todo.updatedAt b - Todo.updatedAt a)%Z.

Definition filteredTodos (trim toLowerCase : string -> string) (searchQuery : string)
    (l : list Todo.t) : list Todo.t :=
  let result :=
    if bool_decide (trim searchQuery = "") then l
    else
      let q := toLowerCase searchQuery in
      List.filter (fun t => includes (toLowerCase (Todo.text t)) q) l in
  Array_sort compareTodos result.

(** ** The list of notes shown (src/App.tsx) *)

(** [type SortKey = 'updatedAt' | 'createdAt' | 'title']. *)
Inductive SortKey := ByUpdatedAt | ByCreatedAt | ByTitle.

(** [type SortDirection = 'asc' | 'desc']. *)
Inductive SortDirection := Asc | Desc.

Module SortConfig.
(** [interface SortConfig]. *)
Record t := mk {
  key : SortKey;
  direction : SortDirection
}.
End SortConfig.

(** The values of the state [viewFilter]. *)
Inductive ViewFilter := ViewAll | ViewFavorites | ViewTodos.

(** [valA < valB] for [valA = a[key]] and [valB = b[key]], the titles in
    lower case. *)
Definition sortValLt (toLowerCase : string -> string) (k : SortKey) (a b : Note.t) : bool :=
  match k with
  | ByUpdatedAt => (Note.updatedAt a <? Note.updatedAt b)%Z
  | ByCreatedAt => (Note.createdAt a <? Note.createdAt b)%Z
  | ByTitle => String.ltb (toLowerCase (Note.title a)) (toLowerCase (Note.title b))
  end.

(** The comparator of [filteredNotes]. *)
Definition compareNotes (toLowerCase : string -> string) (cfg : SortConfig.t)
    (a b : Note.t) : Z :=
  if sortValLt toLowerCase (SortConfig.key cfg) a b then
    match SortConfig.direction cfg with Asc => (-1)%Z | Desc => 1%Z end
  else if sortValLt toLowerCase (SortConfig.key cfg) b a then
    match SortConfig.direction cfg with Asc => 1%Z | Desc => (-1)%Z end
  else 0%Z.

(** The test of the search filter of [filteredNotes]. *)
Definition noteMatches (toLowerCase : string -> string) (q : string) (n : Note.t) : bool :=
  includes (toLowerCase (Note.title n)) q || includes (toLowerCase (Note.content n)) q.

Definition filteredNotes (trim toLowerCase : string -> string) (l : list Note.t)
    (searchQuery : string) (viewFilter : ViewFilter) (sortConfig : SortConfig.t)
    : list Note.t :=
  let result := l in
  let result := match viewFilter with
                | ViewFavorites => List.filter Note.isFavorite result
                | _ => result
                end in
  let result := if bool_decide (trim searchQuery = "") then result
                else List.filter (noteMatches toLowerCase (toLowerCase searchQuery)) result in
  Array_sort (compareNotes toLowerCase sortConfig) result.

(** The initial [sortConfig]. *)
Definition defaultSortConfig : SortConfig.t := SortConfig.mk ByUpdatedAt Desc.

(** [handleToggleFavorite]. *)
Definition handleToggleFavorite (i : string) (now : Z) (st : AppState) : AppState :=
  match List.find (fun n => bool_decide (Note.id n = i)) (notes st) with
  | Some note =>
      updateNoteState i (mkUpdates None None None (Some (negb (Note.isFavorite note)))) now st
  | None => st
  end.

Fixpoint dropwhile_blank (blank : Ascii.ascii -> bool) (l : list Ascii.ascii)
    : list Ascii.ascii :=
  match l with
  | [] => []
  | c :: l' => if blank c then dropwhile_blank blank l' else l
  end.

(** Lower case and trimming of strings of ASCII letters and blanks, for
    the examples. *)
Definition asciiLower (s : string) : string :=
  String.string_of_list_ascii
    (map (fun c => let n := Ascii.nat_of_ascii c in
                   if (65 <=? n)%nat && (n <=? 90)%nat then Ascii.ascii_of_nat (n + 32) else c)
         (String.list_ascii_of_string s)).

Definition asciiTrim (s : string) : string :=
  let blank c := bool_decide (c = Ascii.ascii_of_nat 32) in
  String.string_of_list_ascii
    (reverse (dropwhile_blank blank (reverse (dropwhile_blank blank (String.list_ascii_of_string s))))).

(** ** Export of all notes as text files (src/App.tsx) *)

(** The characters of the class that [handleExportAllTxt] replaces:
    backslash, slash, colon, asterisk, question mark, double quote, less
    than, greater than and vertical bar. *)
Definition isForbiddenFileChar (c : Ascii.ascii) : bool :=
  bool_decide (Ascii.nat_of_ascii c ∈ [92; 47; 58; 42; 63; 34; 60; 62; 124]).

(** [s.replace(/.../g, '_')] for that class. *)
Fixpoint replaceForbidden (s : string) : string :=
  match s with
  | EmptyString => EmptyString
  | String c s' =>
      String (if isForbiddenFileChar c then Ascii.ascii_of_nat 95 else c)
             (replaceForbidden s')
  end.

(** The name given to a note without a title, the UTF-8 bytes of the
    literal of the source. *)
Definition UNNAMED : string := "未命名".

(** [(note.title || UNNAMED).replace(...) + '.txt']. *)
Definition exportFileName (n : Note.t) : string :=
  String.append
    (replaceForbidden (if bool_decide (Note.title n = "") then UNNAMED else Note.title n))
    ".txt".

(** The files of the archive after [notes.forEach(note => zip.file(filename,
    note.content))]: a file added under a name that is taken replaces the
    file of that name. *)
Definition zipNotes (l : list Note.t) : gmap string string :=
  foldl (fun zip n => <[exportFileName n := Note.content n]> zip) ∅ l.

(** The archive that [handleExportAllTxt] builds; none when there is no note. *)
Definition exportAllTxtFiles (l : list Note.t) : option (gmap string string) :=
  if bool_decide (length l = 0) then None else Some (zipNotes l).

(** ** Loading and saving the notes (src/App.tsx)

    A text kept in local storage is represented by what the mount effect
    makes of it: the array that [JSON.parse] reads from it, the empty
    text, or a text for which the [try] block throws. *)

Module StoredNote.
(** A note as read from storage; notes saved by older versions have no
    [createdAt]. *)
Record t := mk {
  id : string;
  title : string;
  content : string;
  excerpt : string;
  updatedAt : Z;
  createdAt : option Z;
  isFavorite : bool
}.
End StoredNote.

Inductive SavedNotes :=
| SavedText (l : list StoredNote.t)
| SavedEmpty
| SavedUnreadable.

(** [JSON.stringify(notes)]. *)
Definition stringifyNotes (l : list Note.t) : SavedNotes :=
  SavedText (map (fun n => StoredNote.mk (Note.id n) (Note.title n) (Note.content n)
                             (Note.excerpt n) (Note.updatedAt n) (Some (Note.createdAt n))
                             (Note.isFavorite n)) l).

(** The effect "Save to local storage on change" on [notes]; [saved] is
    the item under [STORAGE_KEY], absent when [None]. *)
Definition saveNotesEffect (l : list Note.t) (saved : option SavedNotes)
    : option SavedNotes :=
  if bool_decide (0 < length l) then Some (stringifyNotes l) else saved.

(** [n.createdAt || n.updatedAt || Date.now()]. *)
Definition backfillCreatedAt (now : Z) (n : StoredNote.t) : Z :=
  match StoredNote.createdAt n with
  | Some c => if bool_decide (c = 0%Z)
              then (if bool_decide (StoredNote.updatedAt n = 0%Z) then now
                    else StoredNote.updatedAt n)
              else c
  | None => if bool_decide (StoredNote.updatedAt n = 0%Z) then now
            else StoredNote.updatedAt n
  end.

(** [{ ...n, createdAt: n.createdAt || n.updatedAt || Date.now() }]. *)
Definition patchNote (now : Z) (n : StoredNote.t) : Note.t :=
  Note.mk (StoredNote.id n) (StoredNote.title n) (StoredNote.content n)
          (StoredNote.excerpt n) (StoredNote.updatedAt n) (backfillCreatedAt now n)
          (StoredNote.isFavorite n).

(** The welcome note, the UTF-8 bytes of the literals of the source; the
    lines of the content are joined by the line feed. *)
Definition WELCOME_TITLE : string := "欢迎使用 MindSpace".
Definition WELCOME_CONTENT : string :=
  String.concat (String (Ascii.ascii_of_nat 10) EmptyString)
    ["# 欢迎使用 MindSpace";
     "";
     "这是一个全新的极简工作区。";
     "";
     "## 功能介绍";
     "";
     "- **AI 增强**：尝试点击上方的“魔术棒”图标来体验功能，例如：";
     "  - 自动生成摘要";
     "  - 修正语法";
     "  - 续写内容";
     "  - **自定义指令**：点击设置图标，添加你自己的 AI 提示词！";
     "- **Markdown 支持**：点击右上角的眼睛图标即可预览 Markdown 格式。";
     "- **导出功能**：您可以将笔记导出为 TXT 或 PDF 文件，也支持批量导出。";
     "- **排序与整理**：支持按修改时间、创建时间或标题排序。";
     "- **深色模式**：点击侧边栏的月亮/太阳图标，随心切换主题。";
     "";
     "享受写作的乐趣吧！"].
Definition WELCOME_EXCERPT : string := "这是一个全新的极简工作区。".

(** The notes part of the effect "Load Notes & Prompts from local storage
    on mount"; [newId] is the value of [generateId()]. *)
Definition loadNotes (newId : string) (now : Z) (saved : option SavedNotes)
    (st : AppState) : AppState :=
  match saved with
  | Some (SavedText parsed) => setNotes (fun _ => map (patchNote now) parsed) st
  | Some SavedUnreadable => st
  | Some SavedEmpty | None =>
      let initialNote :=
        Note.mk newId WELCOME_TITLE WELCOME_CONTENT WELCOME_EXCERPT now now false in
      setSelectedNoteId (Some newId) (setNotes (fun _ => [initialNote]) st)
  end.

(** The state of the component before its effects have run. *)
Definition initialApp : AppState := mkApp [] None ∅ None [] 1.

(** ** The AI action (src/App_modified.tsx, src/types.ts)

    [handleAiAction] is asynchronous. Its first part runs when the action
    is chosen; its second part runs when [performAIAction] has returned or
    thrown, on the state of that time, with the note [selectedNote] that
    the handler captured when it started. *)

(** [enum AIActionType]. *)
Inductive AIActionType := SUMMARIZE | FIX_GRAMMAR | CONTINUE_WRITING | GENERATE_TITLE | CUSTOM.

(** The field [actionType] of a custom prompt. *)
Inductive PromptAction := ReplaceContent | AppendContent.

Module CustomPrompt.
(** [interface CustomPrompt]. *)
Record t := mk {
  id : string;
  name : string;
  template : string;
  actionType : PromptAction
}.
End CustomPrompt.

(** The line feed. *)
Definition LF : string := String (Ascii.ascii_of_nat 10) EmptyString.

(** The heading put before a summary, the UTF-8 bytes of the literal of
    the source between the line feeds. *)
Definition SUMMARY_HEADING : string :=
  String.append LF (String.append LF (String.append "--- 摘要 ---" LF)).

(** The part of [handleAiAction] before the call: the snapshot is pushed
    and the typing timer is reset. *)
Definition handleAiAction_start (st : AppState) : AppState :=
  match selectedNote st with
  | None => st
  | Some sn => resetTypingTimer (saveToHistory sn st)
  end.

(** The update that [handleAiAction] makes of the result. *)
Definition aiActionUpdates (action : AIActionType) (customPrompt : option CustomPrompt.t)
    (sn : Note.t) (result : string) : option NoteUpdates :=
  match action with
  | GENERATE_TITLE => Some (mkUpdates (Some result) None None None)
  | SUMMARIZE =>
      Some (mkUpdates None
              (Some (String.append (Note.content sn) (String.append SUMMARY_HEADING result)))
              None None)
  | CONTINUE_WRITING =>
      Some (mkUpdates None
              (Some (String.append (Note.content sn) (String.append " " result)))
              None None)
  | FIX_GRAMMAR => Some (mkUpdates None (Some result) None None)
  | CUSTOM =>
      match customPrompt with
      | Some prompt =>
          match CustomPrompt.actionType prompt with
          | ReplaceContent => Some (mkUpdates None (Some result) None None)
          | AppendContent =>
              Some (mkUpdates None
                      (Some (String.append (Note.content sn)
                               (String.append LF (String.append LF result))))
                      None None)
          end
      | None => None
      end
  end.

(** The part of [handleAiAction] after the call; [outcome] is the result
    of [performAIAction], [None] when it has thrown; [sn] is the note
    captured at the start. *)
Definition handleAiAction_finish (action : AIActionType)
    (customPrompt : option CustomPrompt.t) (sn : Note.t) (outcome : option string)
    (now : Z) (st : AppState) : AppState :=
  match outcome with
  | Some result =>
      match aiActionUpdates action customPrompt sn result with
      | Some u => updateNoteState (Note.id sn) u now st
      | None => st
      end
  | None => st
  end.

(** ** The history of the selected note as a cursor *)

(** The snapshots before the note, the note, and the snapshots after it. *)
Record Cursor := mkCursor {
  c_past : list NoteSnapshot;
  c_now : NoteSnapshot;
  c_future : list NoteSnapshot
}.

(** What undo and redo see of a state. *)
Definition cursorOf (st : AppState) : option Cursor :=
  match selectedNote st with
  | Some sn =>
      Some (mkCursor (past (getHistory (Note.id sn) st)) (snapshotOf sn)
                     (future (getHistory (Note.id sn) st)))
  | None => None
  end.

Definition undoCursor (c : Cursor) : Cursor :=
  match last (c_past c) with
  | Some p => mkCursor (removelast (c_past c)) p (c_now c :: c_future c)
  | None => c
  end.

Definition redoCursor (c : Cursor) : Cursor :=
  match c_future c with
  | next :: f => mkCursor (c_past c ++ [c_now c]) next f
  | [] => c
  end.

(** All the snapshots of a cursor, oldest first. *)
Definition cursorLine (c : Cursor) : list NoteSnapshot :=
  c_past c ++ c_now c :: c_future c.

(** ** Properties of the lists shown *)

(** The order in which [filteredTodos] shows two todos: an incomplete one
    before a completed one, and otherwise the one updated later first. *)
Definition todoBefore (a b : Todo.t) : Prop :=
  (Todo.completed a = false /\ Todo.completed b = true) \/
  (Todo.completed a = Todo.completed b /\ (Todo.updatedAt b <= Todo.updatedAt a)%Z).

(** [a[key] <= b[key]], the titles in lower case and compared as
    JavaScript compares strings. *)
Definition sortValLe (toLowerCase : string -> string) (k : SortKey) (a b : Note.t) : Prop :=
  match k with
  | ByUpdatedAt => (Note.updatedAt a <= Note.updatedAt b)%Z
  | ByCreatedAt => (Note.createdAt a <= Note.createdAt b)%Z
  | ByTitle => String.leb (toLowerCase (Note.title a)) (toLowerCase (Note.title b)) = true
  end.

(** The order in which [filteredNotes] shows two notes. *)
Definition noteBefore (toLowerCase : string -> string) (cfg : SortConfig.t)
    (a b : Note.t) : Prop :=
  match SortConfig.direction cfg with
  | Asc => sortValLe toLowerCase (SortConfig.key cfg) a b
  | Desc => sortValLe toLowerCase (SortConfig.key cfg) b a
  end.

(** The notes that pass the filters of [filteredNotes]. *)
Definition noteShown (trim toLowerCase : string -> string) (searchQuery : string)
    (viewFilter : ViewFilter) (n : Note.t) : bool :=
  match viewFilter with ViewFavorites => Note.isFavorite n | _ => true end &&
  (bool_decide (trim searchQuery = "")
   || noteMatches toLowerCase (toLowerCase searchQuery) n).

(** The todos that pass the search filter of [filteredTodos]. *)
Definition todoShown (trim toLowerCase : string -> string) (searchQuery : string)
    (t : Todo.t) : bool :=
  bool_decide (trim searchQuery = "")
  || includes (toLowerCase (Todo.text t)) (toLowerCase searchQuery).

(** ** The scenario of the specification, as a test *)

Example scenario_edit1 :
  let st := run [(10%Z, TextChange KContent "C1")] scenario0 in
  history st !! "doc1" = Some (mkHistory [mkSnapshot "T" "C"] []) /\
  Note.content <$> selectedNote st = Some "C1".
Proof. vm_compute. split; reflexivity. Qed.

Example scenario_edit2 :
  let st := run [(10%Z, TextChange KContent "C1"); (500%Z, TextChange KContent "C2")] scenario0 in
  history st !! "doc1" = Some (mkHistory [mkSnapshot "T" "C"] []) /\
  Note.content <$> selectedNote st = Some "C2".
Proof. vm_compute. split; reflexivity. Qed.

Example scenario_undo :
  let st := run [(10%Z, TextChange KContent "C1"); (500%Z, TextChange KContent "C2");
                 (3000%Z, Undo)] scenario0 in
  history st !! "doc1" = Some (mkHistory [] [mkSnapshot "T" "C2"]) /\
  Note.content <$> selectedNote st = Some "C".
Proof. vm_compute. split; reflexivity. Qed.

Example scenario_redo :
  let st := run [(10%Z, TextChange KContent "C1"); (500%Z, TextChange KContent "C2");
                 (3000%Z, Undo); (3100%Z, Redo)] scenario0 in
  history st !! "doc1" = Some (mkHistory [mkSnapshot "T" "C"] []) /\
  Note.content <$> selectedNote st = Some "C2".
Proof. vm_compute. split; reflexivity. Qed.

(** ** Basic facts about the handlers *)

Section Handlers.
Implicit Types (st : AppState) (sn n : Note.t) (h : HistoryState) (i : string) (now : Z).

Lemma find_id_spec i (l : list Note.t) n :
  List.find (fun m => bool_decide (Note.id m = i)) l = Some n -> Note.id n = i.
Proof.
  intros Hf. apply List.find_some in Hf as [_ Hb].
  by apply bool_decide_eq_true in Hb.
Qed.

Lemma find_map_update i (g : Note.t -> Note.t) (l : list Note.t) n :
  (forall m, Note.id (g m) = Note.id m) ->
  List.find (fun m => bool_decide (Note.id m = i)) l = Some n ->
  List.find (fun m => bool_decide (Note.id m = i))
    (map (fun m => if bool_decide (Note.id m = i) then g m else m) l) = Some (g n).
Proof.
  intros Hg. induction l as [|m l IH]; simpl; [done|].
  destruct (bool_decide (Note.id m = i)) eqn:E.
  - intros [= ->]. simpl. by rewrite Hg, E.
  - intros Hf. simpl. rewrite E. by apply IH.
Qed.

Lemma selectedNote_id st sn :
  selectedNote st = Some sn -> selectedNoteId st = Some (Note.id sn).
Proof.
  unfold selectedNote. destruct (selectedNoteId st) as [i|]; [|done].
  intros Hf. by rewrite (find_id_spec _ _ _ Hf).
Qed.

Lemma selectedNote_setHistory f st : selectedNote (setHistory f st) = selectedNote st.
Proof. reflexivity. Qed.

Lemma selectedNote_updateNoteState st sn u now :
  selectedNote st = Some sn ->
  selectedNote (updateNoteState (Note.id sn) u now st) = Some (applyUpdates sn u now).
Proof.
  intros Hs. pose proof (selectedNote_id _ _ Hs) as Hid.
  unfold selectedNote in *. simpl. rewrite Hid in *.
  by apply (find_map_update _ (fun m => applyUpdates m u now)).
Qed.

Lemma history_updateNoteState i u now st :
  history (updateNoteState i u now st) = history st.
Proof. reflexivity. Qed.

(** What [handleUndo] does when it acts. *)
Lemma handleUndo_acts now st sn h rest restored :
  selectedNote st = Some sn ->
  history st !! Note.id sn = Some h ->
  past h = rest ++ [restored] ->
  handleUndo now st =
    updateNoteState (Note.id sn)
      (mkUpdates (Some (title restored)) (Some (content restored)) None None) now
      (setHistory <[Note.id sn := mkHistory rest (snapshotOf sn :: future h)]> st).
Proof.
  intros Hs Hh Hp. unfold handleUndo. rewrite Hs, Hh, Hp.
  rewrite length_app. simpl.
  rewrite bool_decide_eq_false_2 by lia.
  replace (length rest + 1 - 1) with (length rest) by lia.
  rewrite lookup_app_r by lia. rewrite Nat.sub_diag. simpl.
  by rewrite take_app_length.
Qed.

(** What [handleRedo] does when it acts. *)
Lemma handleRedo_acts now st sn h rest restored :
  selectedNote st = Some sn ->
  history st !! Note.id sn = Some h ->
  future h = restored :: rest ->
  handleRedo now st =
    updateNoteState (Note.id sn)
      (mkUpdates (Some (title restored)) (Some (content restored)) None None) now
      (setHistory <[Note.id sn := mkHistory (past h ++ [snapshotOf sn]) rest]> st).
Proof.
  intros Hs Hh Hf. unfold handleRedo. rewrite Hs, Hh, Hf. reflexivity.
Qed.

(** An edit that starts a typing session: the snapshot is pushed and a
    timeout is scheduled. *)
Lemma handleTextChange_start k value now st sn :
  selectedNote st = Some sn ->
  typingTimeoutRef st = None ->
  handleTextChange k value now st =
    mkApp (map (fun n => if bool_decide (Note.id n = Note.id sn)
                         then applyUpdates n (textUpdates k value sn) now else n)
               (notes st))
          (selectedNoteId st)
          (<[Note.id sn :=
               mkHistory (past (getHistory (Note.id sn) st) ++ [snapshotOf sn]) []]>
             (history st))
          (Some (nextTimer st))
          (timers st ++ [(nextTimer st, (now + QUIET_INTERVAL)%Z)])
          (Pos.succ (nextTimer st)).
Proof.
  intros Hs Hr. unfold handleTextChange. rewrite Hs, Hr. simpl. rewrite Hr.
  reflexivity.
Qed.

(** An edit inside a typing session: the pending timeout is replaced and
    nothing is pushed. *)
Lemma handleTextChange_continue k value now st sn t :
  selectedNote st = Some sn ->
  typingTimeoutRef st = Some t ->
  handleTextChange k value now st =
    mkApp (map (fun n => if bool_decide (Note.id n = Note.id sn)
                         then applyUpdates n (textUpdates k value sn) now else n)
               (notes st))
          (selectedNoteId st)
          (history st)
          (Some (nextTimer st))
          (filter (fun p => p.1 <> t) (timers st)
             ++ [(nextTimer st, (now + QUIET_INTERVAL)%Z)])
          (Pos.succ (nextTimer st)).
Proof.
  intros Hs Hr. unfold handleTextChange. rewrite Hs, Hr. simpl. rewrite Hr.
  reflexivity.
Qed.

Lemma handleTextChange_selectedNote k value now st sn :
  selectedNote st = Some sn ->
  selectedNote (handleTextChange k value now st)
    = Some (applyUpdates sn (textUpdates k value sn) now).
Proof.
  intros Hs. pose proof (selectedNote_id _ _ Hs) as Hid.
  assert (List.find (fun m => bool_decide (Note.id m = Note.id sn)) (notes st) = Some sn)
    as Hf by (unfold selectedNote in Hs; by rewrite Hid in Hs).
  destruct (typingTimeoutRef st) as [t|] eqn:Hr.
  - rewrite (handleTextChange_continue _ _ _ _ _ _ Hs Hr).
    unfold selectedNote. simpl. rewrite Hid.
    by apply (find_map_update _ (fun m => applyUpdates m (textUpdates k value sn) now)).
  - rewrite (handleTextChange_start _ _ _ _ _ Hs Hr).
    unfold selectedNote. simpl. rewrite Hid.
    by apply (find_map_update _ (fun m => applyUpdates m (textUpdates k value sn) now)).
Qed.

Lemma nonempty_snoc {A} (l : list A) : l <> [] -> exists rest x, l = rest ++ [x].
Proof.
  destruct l as [|x rest _] using rev_ind; [done|]. intros _. by exists rest, x.
Qed.

Lemma snapshotOf_applyUpdates sn (s : NoteSnapshot) now :
  snapshotOf (applyUpdates sn (mkUpdates (Some (title s)) (Some (content s)) None None) now) = s.
Proof. by destruct s. Qed.

End Handlers.

(** ** Undo and redo *)

Section UndoRedo.
Implicit Types (st : AppState) (sn n : Note.t) (h : HistoryState) (i : string) (now : Z).

Lemma canUndo_inv st :
  canUndo st = true ->
  exists i h, selectedNoteId st = Some i /\ i <> "" /\
              history st !! i = Some h /\ past h <> [].
Proof.
  unfold canUndo, canUndoOf, truthyId.
  destruct (selectedNoteId st) as [i|]; [|done].
  case_bool_decide as Hi; simpl; [done|].
  destruct (history st !! i) as [h|] eqn:Hh; [|done].
  intros Hp. apply bool_decide_eq_true in Hp. exists i, h.
  split_and!; [done..|]. destruct (past h); simpl in *; [lia|done].
Qed.

Lemma canRedo_inv st :
  canRedo st = true ->
  exists i h, selectedNoteId st = Some i /\ i <> "" /\
              history st !! i = Some h /\ future h <> [].
Proof.
  unfold canRedo, canRedoOf, truthyId.
  destruct (selectedNoteId st) as [i|]; [|done].
  case_bool_decide as Hi; simpl; [done|].
  destruct (history st !! i) as [h|] eqn:Hh; [|done].
  intros Hp. apply bool_decide_eq_true in Hp. exists i, h.
  split_and!; [done..|]. destruct (future h); simpl in *; [lia|done].
Qed.

Lemma handleUndo_no_note now st : selectedNote st = None -> handleUndo now st = st.
Proof. intros Hs. unfold handleUndo. by rewrite Hs. Qed.

Lemma handleRedo_no_note now st : selectedNote st = None -> handleRedo now st = st.
Proof. intros Hs. unfold handleRedo. by rewrite Hs. Qed.

Lemma handleUndo_empty now st i :
  selectedNoteId st = Some i -> past (getHistory i st) = [] -> handleUndo now st = st.
Proof.
  intros Hsel Hp. unfold handleUndo.
  destruct (selectedNote st) as [sn|] eqn:Hs; [|done].
  apply selectedNote_id in Hs. rewrite Hsel in Hs. injection Hs as ->.
  unfold getHistory in Hp.
  destruct (history st !! Note.id sn) as [h|]; [|done]. simpl in Hp.
  by rewrite Hp.
Qed.

Lemma handleRedo_empty now st i :
  selectedNoteId st = Some i -> future (getHistory i st) = [] -> handleRedo now st = st.
Proof.
  intros Hsel Hp. unfold handleRedo.
  destruct (selectedNote st) as [sn|] eqn:Hs; [|done].
  apply selectedNote_id in Hs. rewrite Hsel in Hs. injection Hs as ->.
  unfold getHistory in Hp.
  destruct (history st !! Note.id sn) as [h|]; [|done]. simpl in Hp.
  by rewrite Hp.
Qed.

Lemma touchedBy_refl sel (l : list Note.t) : Forall2 (touchedBy sel) l l.
Proof. induction l; constructor; [by left|done]. Qed.

Lemma updateNoteState_touches i (t c : string) now st :
  Forall2 (touchedBy (Some i)) (notes st)
    (notes (updateNoteState i (mkUpdates (Some t) (Some c) None None) now st)).
Proof.
  simpl. induction (notes st) as [|m l IH]; simpl; constructor; [|done].
  case_bool_decide as Hm; [|by left]. right. by rewrite Hm.
Qed.

Lemma handleUndo_touches now st :
  Forall2 (touchedBy (selectedNoteId st)) (notes st) (notes (handleUndo now st)).
Proof.
  unfold handleUndo.
  destruct (selectedNote st) as [sn|] eqn:Hs; [|apply touchedBy_refl].
  rewrite (selectedNote_id _ _ Hs).
  destruct (history st !! Note.id sn) as [h|]; [|apply touchedBy_refl].
  case_bool_decide; [apply touchedBy_refl|].
  destruct (past h !! _) as [previous|]; [|apply touchedBy_refl].
  apply (updateNoteState_touches _ _ _ _ (setHistory _ st)).
Qed.

Lemma handleRedo_touches now st :
  Forall2 (touchedBy (selectedNoteId st)) (notes st) (notes (handleRedo now st)).
Proof.
  unfold handleRedo.
  destruct (selectedNote st) as [sn|] eqn:Hs; [|apply touchedBy_refl].
  rewrite (selectedNote_id _ _ Hs).
  destruct (history st !! Note.id sn) as [h|]; [|apply touchedBy_refl].
  case_bool_decide; [apply touchedBy_refl|].
  destruct (future h !! _) as [next|]; [|apply touchedBy_refl].
  apply (updateNoteState_touches _ _ _ _ (setHistory _ st)).
Qed.

End UndoRedo.

(** ** Claims about undo and redo *)

(** C1. When the history record of the selected note has a non-empty
    [past], [handleUndo] takes the last entry of [past] as the restored
    snapshot, puts the current {title, content} snapshot on the front of
    [future] and gives the note the restored title and content; when
    [future] is non-empty, [handleRedo] takes the first entry of [future],
    puts the current snapshot at the end of [past] and gives the note the
    popped title and content. On the lengths of the two stacks, undo is
    (p, f) -> (p-1, f+1) and redo is (p, f) -> (p+1, f-1). *)
Theorem undo_redo_transitions now st sn h :
  selectedNote st = Some sn ->
  history st !! Note.id sn = Some h ->
  (past h <> [] ->
   exists restored rest,
     past h = rest ++ [restored] /\
     history (handleUndo now st) =
       <[Note.id sn := mkHistory rest (snapshotOf sn :: future h)]> (history st) /\
     snapshotOf <$> selectedNote (handleUndo now st) = Some restored /\
     length (past (getHistory (Note.id sn) (handleUndo now st))) + 1 = length (past h) /\
     length (future (getHistory (Note.id sn) (handleUndo now st))) = length (future h) + 1)
  /\
  (future h <> [] ->
   exists restored rest,
     future h = restored :: rest /\
     history (handleRedo now st) =
       <[Note.id sn := mkHistory (past h ++ [snapshotOf sn]) rest]> (history st) /\
     snapshotOf <$> selectedNote (handleRedo now st) = Some restored /\
     length (past (getHistory (Note.id sn) (handleRedo now st))) = length (past h) + 1 /\
     length (future (getHistory (Note.id sn) (handleRedo now st))) + 1 = length (future h)).
Proof.
  intros Hs Hh. split.
  - intros Hp. destruct (nonempty_snoc _ Hp) as (rest & restored & Hpast).
    exists restored, rest.
    rewrite (handleUndo_acts now st sn h rest restored Hs Hh Hpast).
    rewrite selectedNote_updateNoteState by done.
    unfold getHistory. rewrite history_updateNoteState. simpl.
    rewrite lookup_insert_eq. simpl. rewrite snapshotOf_applyUpdates.
    split_and!; try done; [|lia]. rewrite Hpast, length_app. simpl. lia.
  - intros Hf. destruct (future h) as [|restored rest] eqn:Hfut; [done|].
    exists restored, rest.
    rewrite (handleRedo_acts now st sn h rest restored Hs Hh Hfut).
    rewrite selectedNote_updateNoteState by done.
    unfold getHistory. rewrite history_updateNoteState. simpl.
    rewrite lookup_insert_eq. simpl. rewrite snapshotOf_applyUpdates.
    split_and!; try done.
    + rewrite length_app. simpl. lia.
    + lia.
Qed.

Lemma undo_redo_transitions_witness :
  let now := 20%Z in
  let st := scenario_mid in
  let sn := scenario_mid_note in
  let h := scenario_mid_record in
  (exists restored rest,
     past h = rest ++ [restored] /\
     history (handleUndo now st) =
       <[Note.id sn := mkHistory rest (snapshotOf sn :: future h)]> (history st) /\
     snapshotOf <$> selectedNote (handleUndo now st) = Some restored /\
     length (past (getHistory (Note.id sn) (handleUndo now st))) + 1 = length (past h) /\
     length (future (getHistory (Note.id sn) (handleUndo now st))) = length (future h) + 1)
  /\
  (exists restored rest,
     future h = restored :: rest /\
     history (handleRedo now st) =
       <[Note.id sn := mkHistory (past h ++ [snapshotOf sn]) rest]> (history st) /\
     snapshotOf <$> selectedNote (handleRedo now st) = Some restored /\
     length (past (getHistory (Note.id sn) (handleRedo now st))) = length (past h) + 1 /\
     length (future (getHistory (Note.id sn) (handleRedo now st))) + 1 = length (future h)).
Proof.
  intros now st sn h.
  destruct (undo_redo_transitions now st sn h eq_refl eq_refl) as [Hu Hr].
  split; [apply Hu | apply Hr]; discriminate.
Defined.

(** C3. Where undo is enabled, undo followed by redo gives the selected
    note the title and content it had and gives every history record the
    stacks it had; where redo is enabled, redo followed by undo does the
    same. *)
Theorem undo_redo_inverse now1 now2 st :
  (canUndo st = true ->
   snapshotOf <$> selectedNote (handleRedo now2 (handleUndo now1 st))
     = snapshotOf <$> selectedNote st /\
   history (handleRedo now2 (handleUndo now1 st)) = history st)
  /\
  (canRedo st = true ->
   snapshotOf <$> selectedNote (handleUndo now2 (handleRedo now1 st))
     = snapshotOf <$> selectedNote st /\
   history (handleUndo now2 (handleRedo now1 st)) = history st).
Proof.
  split.
  - intros (i & h & Hsel & _ & Hh & Hp)%canUndo_inv.
    destruct (selectedNote st) as [sn|] eqn:Hs.
    2: { by rewrite (handleUndo_no_note _ _ Hs), (handleRedo_no_note _ _ Hs), Hs. }
    pose proof (selectedNote_id _ _ Hs) as Hid. rewrite Hsel in Hid.
    injection Hid as ->.
    destruct (nonempty_snoc _ Hp) as (rest & restored & Hpast).
    rewrite (handleUndo_acts now1 st sn h rest restored Hs Hh Hpast).
    set (u1 := mkUpdates (Some (title restored)) (Some (content restored)) None None).
    set (st0 := setHistory _ st).
    assert (selectedNote (updateNoteState (Note.id sn) u1 now1 st0)
            = Some (applyUpdates sn u1 now1)) as Hs1
      by (by apply selectedNote_updateNoteState).
    assert (history (updateNoteState (Note.id sn) u1 now1 st0)
              !! Note.id (applyUpdates sn u1 now1)
            = Some (mkHistory rest (snapshotOf sn :: future h))) as Hh1
      by (simpl; apply lookup_insert_eq).
    rewrite (handleRedo_acts now2 _ _ _ (future h) (snapshotOf sn) Hs1 Hh1 eq_refl).
    rewrite selectedNote_updateNoteState by done. simpl.
    split; [by destruct sn|].
    unfold u1, snapshotOf at 1. simpl. rewrite insert_insert_eq.
    apply insert_id. rewrite Hh. f_equal. destruct h as [p f], restored.
    simpl in *. by rewrite Hpast.
  - intros (i & h & Hsel & _ & Hh & Hf)%canRedo_inv.
    destruct (selectedNote st) as [sn|] eqn:Hs.
    2: { by rewrite (handleRedo_no_note _ _ Hs), (handleUndo_no_note _ _ Hs), Hs. }
    pose proof (selectedNote_id _ _ Hs) as Hid. rewrite Hsel in Hid.
    injection Hid as ->.
    destruct (future h) as [|restored rest] eqn:Hfut; [done|].
    rewrite (handleRedo_acts now1 st sn h rest restored Hs Hh Hfut).
    set (u1 := mkUpdates (Some (title restored)) (Some (content restored)) None None).
    set (st0 := setHistory _ st).
    assert (selectedNote (updateNoteState (Note.id sn) u1 now1 st0)
            = Some (applyUpdates sn u1 now1)) as Hs1
      by (by apply selectedNote_updateNoteState).
    assert (history (updateNoteState (Note.id sn) u1 now1 st0)
              !! Note.id (applyUpdates sn u1 now1)
            = Some (mkHistory (past h ++ [snapshotOf sn]) rest)) as Hh1
      by (simpl; apply lookup_insert_eq).
    rewrite (handleUndo_acts now2 _ _ _ (past h) (snapshotOf sn) Hs1 Hh1 eq_refl).
    rewrite selectedNote_updateNoteState by done. simpl.
    split; [by destruct sn|].
    unfold u1, snapshotOf at 1. simpl. rewrite insert_insert_eq.
    apply insert_id. rewrite Hh. f_equal. destruct h as [p f], restored.
    simpl in *. by rewrite Hfut.
Qed.

Lemma undo_redo_inverse_witness :
  (snapshotOf <$> selectedNote (handleRedo 30 (handleUndo 20 scenario_mid))
     = snapshotOf <$> selectedNote scenario_mid /\
   history (handleRedo 30 (handleUndo 20 scenario_mid)) = history scenario_mid)
  /\
  (snapshotOf <$> selectedNote (handleUndo 30 (handleRedo 20 scenario_mid))
     = snapshotOf <$> selectedNote scenario_mid /\
   history (handleUndo 30 (handleRedo 20 scenario_mid)) = history scenario_mid).
Proof.
  destruct (undo_redo_inverse 20 30 scenario_mid) as [Hu Hr].
  split; [apply Hu | apply Hr]; reflexivity.
Defined.

(** C7. Undo on a selected note whose [past] is empty and redo on a
    selected note whose [future] is empty leave the whole state, hence the
    title, the content and both stacks, as it was; and for the selected
    note (a [selectedNoteId] that the code takes as set, that is a truthy
    one) [canUndo] says whether [past] is non-empty and [canRedo] whether
    [future] is. *)
Theorem undo_redo_idle_noop now st i :
  selectedNoteId st = Some i ->
  (past (getHistory i st) = [] -> handleUndo now st = st) /\
  (future (getHistory i st) = [] -> handleRedo now st = st) /\
  (truthyId (selectedNoteId st) = true ->
   canUndo st = bool_decide (past (getHistory i st) <> []) /\
   canRedo st = bool_decide (future (getHistory i st) <> [])).
Proof.
  intros Hsel. split_and!.
  - by apply handleUndo_empty.
  - by apply handleRedo_empty.
  - intros Ht. rewrite Hsel in Ht.
    unfold canUndo, canUndoOf, canRedo, canRedoOf. rewrite Hsel, Ht.
    unfold getHistory.
    destruct (history st !! i) as [h|]; simpl; [|done].
    split.
    + apply bool_decide_ext.
      destruct (past h); simpl; [split; [lia|done] | split; [done|lia]].
    + apply bool_decide_ext.
      destruct (future h); simpl; [split; [lia|done] | split; [done|lia]].
Qed.

Lemma undo_redo_idle_noop_witness :
  handleUndo 20 scenario_idle = scenario_idle /\
  handleRedo 20 scenario_idle = scenario_idle /\
  canUndo scenario_idle = false /\ canRedo scenario_idle = false.
Proof.
  destruct (undo_redo_idle_noop 20 scenario_idle "doc1" eq_refl) as (Hu & Hr & Hc).
  destruct (Hc eq_refl) as [Hcu Hcr].
  split_and!; [apply Hu | apply Hr | rewrite Hcu | rewrite Hcr]; reflexivity.
Defined.

(** C10. Undo and redo change no note but the selected one, and in that
    one they keep every field but [title], [content] and [updatedAt], so
    the excerpt keeps the value it had; when they act, [updatedAt] is the
    time of the operation. A content edit sets the excerpt to the first
    100 characters of the new content and a title edit keeps it. There
    are states in which, after an undo and after a redo, the excerpt
    differs from the first 100 characters of the restored content. *)
Theorem undo_redo_keep_excerpt :
  (forall now st,
     Forall2 (touchedBy (selectedNoteId st)) (notes st) (notes (handleUndo now st)) /\
     Forall2 (touchedBy (selectedNoteId st)) (notes st) (notes (handleRedo now st))) /\
  (forall now st sn,
     selectedNote st = Some sn ->
     (canUndo st = true ->
      Note.updatedAt <$> selectedNote (handleUndo now st) = Some now) /\
     (canRedo st = true ->
      Note.updatedAt <$> selectedNote (handleRedo now st) = Some now)) /\
  (forall now st sn value,
     selectedNote st = Some sn ->
     Note.excerpt <$> selectedNote (handleTextChange KContent value now st)
       = Some (substring_0_100 value) /\
     Note.excerpt <$> selectedNote (handleTextChange KTitle value now st)
       = Some (Note.excerpt sn)) /\
  (exists now st n,
     selectedNote (handleUndo now st) = Some n /\
     Note.content n = "C" /\ Note.excerpt n = "C1" /\
     Note.excerpt n <> substring_0_100 (Note.content n)) /\
  (exists now st n,
     selectedNote (handleRedo now st) = Some n /\
     Note.content n = "C2" /\ Note.excerpt n = "C1" /\
     Note.excerpt n <> substring_0_100 (Note.content n)).
Proof.
  split_and!.
  - intros now st. split; [apply handleUndo_touches | apply handleRedo_touches].
  - intros now st sn Hs. split.
    + intros (i & h & Hsel & _ & Hh & Hp)%canUndo_inv.
      pose proof (selectedNote_id _ _ Hs) as Hid. rewrite Hsel in Hid.
      injection Hid as ->.
      destruct (nonempty_snoc _ Hp) as (rest & restored & Hpast).
      rewrite (handleUndo_acts now st sn h rest restored Hs Hh Hpast).
      by rewrite selectedNote_updateNoteState.
    + intros (i & h & Hsel & _ & Hh & Hf)%canRedo_inv.
      pose proof (selectedNote_id _ _ Hs) as Hid. rewrite Hsel in Hid.
      injection Hid as ->.
      destruct (future h) as [|restored rest] eqn:Hfut; [done|].
      rewrite (handleRedo_acts now st sn h rest restored Hs Hh Hfut).
      by rewrite selectedNote_updateNoteState.
  - intros now st sn value Hs.
    by rewrite !(handleTextChange_selectedNote _ _ _ _ _ Hs).
  - exists 20%Z, scenario_edited, (Note.mk "doc1" "T" "C" "C1" 20 0 false).
    vm_compute. split_and!; try reflexivity. discriminate.
  - exists 20%Z, scenario_mid, (Note.mk "doc1" "T" "C2" "C1" 20 0 false).
    vm_compute. split_and!; try reflexivity. discriminate.
Qed.

Lemma undo_redo_keep_excerpt_witness :
  Note.updatedAt <$> selectedNote (handleUndo 20 scenario_mid) = Some 20%Z /\
  Note.updatedAt <$> selectedNote (handleRedo 20 scenario_mid) = Some 20%Z /\
  Note.excerpt <$> selectedNote (handleTextChange KContent "C1" 10 scenario0) = Some "C1" /\
  Note.excerpt <$> selectedNote (handleTextChange KTitle "T1" 10 scenario0) = Some "C".
Proof.
  destruct undo_redo_keep_excerpt as (_ & Htime & Hedit & _).
  destruct (Htime 20%Z scenario_mid scenario_mid_note eq_refl) as [Hu Hr].
  destruct (Hedit 10%Z scenario0 doc1 "C1" eq_refl) as [Hc _].
  destruct (Hedit 10%Z scenario0 doc1 "T1" eq_refl) as [_ Ht].
  split_and!; [exact (Hu eq_refl) | exact (Hr eq_refl) | exact Hc | exact Ht].
Defined.

(** ** The timer slot and the history under the other handlers *)

Section Frames.
Implicit Types (st : AppState) (sn n : Note.t) (h : HistoryState) (i : string) (now : Z).

(** [handleUndo] either does nothing or acts as in [handleUndo_acts]. *)
Lemma handleUndo_cases now st :
  handleUndo now st = st \/
  exists sn h rest restored,
    selectedNote st = Some sn /\ history st !! Note.id sn = Some h /\
    past h = rest ++ [restored] /\
    handleUndo now st =
      updateNoteState (Note.id sn)
        (mkUpdates (Some (title restored)) (Some (content restored)) None None) now
        (setHistory <[Note.id sn := mkHistory rest (snapshotOf sn :: future h)]> st).
Proof.
  destruct (selectedNote st) as [sn|] eqn:Hs; [|left; by apply handleUndo_no_note].
  destruct (history st !! Note.id sn) as [h|] eqn:Hh;
    [|left; unfold handleUndo; by rewrite Hs, Hh].
  destruct (decide (past h = [])) as [Hp|Hp].
  - left. unfold handleUndo. by rewrite Hs, Hh, Hp.
  - right. destruct (nonempty_snoc _ Hp) as (rest & restored & Hpast).
    exists sn, h, rest, restored. split_and!; try done.
    by apply handleUndo_acts.
Qed.

Lemma handleRedo_cases now st :
  handleRedo now st = st \/
  exists sn h rest restored,
    selectedNote st = Some sn /\ history st !! Note.id sn = Some h /\
    future h = restored :: rest /\
    handleRedo now st =
      updateNoteState (Note.id sn)
        (mkUpdates (Some (title restored)) (Some (content restored)) None None) now
        (setHistory <[Note.id sn := mkHistory (past h ++ [snapshotOf sn]) rest]> st).
Proof.
  destruct (selectedNote st) as [sn|] eqn:Hs; [|left; by apply handleRedo_no_note].
  destruct (history st !! Note.id sn) as [h|] eqn:Hh;
    [|left; unfold handleRedo; by rewrite Hs, Hh].
  destruct (future h) as [|restored rest] eqn:Hf.
  - left. unfold handleRedo. by rewrite Hs, Hh, Hf.
  - right. exists sn, h, rest, restored. split_and!; try done.
    by apply handleRedo_acts.
Qed.

(** Undo and redo do not read or write the timer slot. *)
Lemma handleUndo_timer now st :
  typingTimeoutRef (handleUndo now st) = typingTimeoutRef st /\
  timers (handleUndo now st) = timers st /\
  nextTimer (handleUndo now st) = nextTimer st.
Proof.
  destruct (handleUndo_cases now st) as [->|(sn & h & rest & restored & _ & _ & _ & ->)];
    done.
Qed.

Lemma handleRedo_timer now st :
  typingTimeoutRef (handleRedo now st) = typingTimeoutRef st /\
  timers (handleRedo now st) = timers st /\
  nextTimer (handleRedo now st) = nextTimer st.
Proof.
  destruct (handleRedo_cases now st) as [->|(sn & h & rest & restored & _ & _ & _ & ->)];
    done.
Qed.

(** The redo stack of any note after an undo: as before, or one longer. *)
Lemma handleUndo_future now st i :
  future (getHistory i (handleUndo now st)) = future (getHistory i st) \/
  exists cur,
    future (getHistory i (handleUndo now st)) = cur :: future (getHistory i st).
Proof.
  destruct (handleUndo_cases now st) as [->|(sn & h & rest & restored & _ & Hh & _ & ->)];
    [by left|].
  unfold getHistory. rewrite history_updateNoteState. simpl.
  destruct (decide (Note.id sn = i)) as [<-|Hne].
  - right. exists (snapshotOf sn). by rewrite lookup_insert_eq, Hh.
  - left. by rewrite lookup_insert_ne.
Qed.

(** The redo stack of any note after a redo: as before, or without its
    first entry, which is then the title and content of the note. *)
Lemma handleRedo_future now st i :
  future (getHistory i (handleRedo now st)) = future (getHistory i st) \/
  exists next,
    future (getHistory i st) = next :: future (getHistory i (handleRedo now st)) /\
    snapshotOf <$> selectedNote (handleRedo now st) = Some next.
Proof.
  destruct (handleRedo_cases now st) as [->|(sn & h & rest & restored & Hs & Hh & Hf & ->)];
    [by left|].
  unfold getHistory. rewrite history_updateNoteState. simpl.
  destruct (decide (Note.id sn = i)) as [<-|Hne].
  - right. exists restored. rewrite lookup_insert_eq, Hh. simpl. split; [done|].
    rewrite selectedNote_updateNoteState by done. simpl.
    by rewrite snapshotOf_applyUpdates.
  - left. by rewrite lookup_insert_ne.
Qed.

Lemma resetTypingTimer_spec st :
  typingTimeoutRef (resetTypingTimer st) = None /\
  history (resetTypingTimer st) = history st /\
  notes (resetTypingTimer st) = notes st /\
  selectedNoteId (resetTypingTimer st) = selectedNoteId st /\
  (forall t, typingTimeoutRef st = Some t -> t ∉ (timers (resetTypingTimer st)).*1) /\
  timers (resetTypingTimer st) ⊆ timers st.
Proof.
  unfold resetTypingTimer. destruct (typingTimeoutRef st) as [t|] eqn:Hr; simpl.
  - split_and!; try done.
    + intros t' [= <-]. rewrite list_elem_of_fmap. intros ([t' d] & -> & Hin).
      apply list_elem_of_filter in Hin as [Hne _]. by apply Hne.
    + intros x Hin. by apply list_elem_of_filter in Hin as [_ Hin].
  - rewrite Hr. split_and!; done.
Qed.

Lemma history_setSelectedNoteId v st : history (setSelectedNoteId v st) = history st.
Proof.
  unfold setSelectedNoteId. case_decide; [done|].
  by destruct (resetTypingTimer_spec
                 (mkApp (notes st) v (history st) (typingTimeoutRef st)
                        (timers st) (nextTimer st))) as (_ & -> & _).
Qed.

End Frames.

(** ** Claims about the session-start push, focus changes, deletion and keys *)

(** C2. [saveToHistory] puts the snapshot of the note at the end of its
    [past] and sets its [future] to empty, whatever [future] held. No
    other operation discards redo entries: after an undo the [future] of
    any note is what it was or one entry longer, after a redo it is what
    it was or lacks only the first entry, which has become the note's
    title and content, and a change of the selected note leaves the
    history as it is. In particular, after an undo that acted, [future]
    is non-empty and an edit that starts a typing session (timer slot
    idle) makes it empty. *)
Theorem push_clears_future :
  (forall note st,
     history (saveToHistory note st) =
       <[Note.id note :=
           mkHistory (past (getHistory (Note.id note) st) ++ [snapshotOf note]) []]>
         (history st)) /\
  (forall now st i,
     future (getHistory i (handleUndo now st)) = future (getHistory i st) \/
     exists cur,
       future (getHistory i (handleUndo now st)) = cur :: future (getHistory i st)) /\
  (forall now st i,
     future (getHistory i (handleRedo now st)) = future (getHistory i st) \/
     exists next,
       future (getHistory i st) = next :: future (getHistory i (handleRedo now st)) /\
       snapshotOf <$> selectedNote (handleRedo now st) = Some next) /\
  (forall v st, history (setSelectedNoteId v st) = history st) /\
  (forall now1 now2 k value st sn,
     selectedNote st = Some sn ->
     canUndo st = true ->
     typingTimeoutRef st = None ->
     future (getHistory (Note.id sn) (handleUndo now1 st)) <> [] /\
     future (getHistory (Note.id sn)
               (handleTextChange k value now2 (handleUndo now1 st))) = []).
Proof.
  split_and!.
  - reflexivity.
  - apply handleUndo_future.
  - apply handleRedo_future.
  - apply history_setSelectedNoteId.
  - intros now1 now2 k value st sn Hs (i & h & Hsel & _ & Hh & Hp)%canUndo_inv Hr.
    pose proof (selectedNote_id _ _ Hs) as Hid. rewrite Hsel in Hid.
    injection Hid as ->.
    destruct (nonempty_snoc _ Hp) as (rest & restored & Hpast).
    destruct (handleUndo_timer now1 st) as (Hr' & _). rewrite Hr in Hr'.
    rewrite (handleUndo_acts now1 st sn h rest restored Hs Hh Hpast) in *.
    set (u1 := mkUpdates (Some (title restored)) (Some (content restored)) None None) in *.
    set (st0 := setHistory _ st) in *.
    assert (selectedNote (updateNoteState (Note.id sn) u1 now1 st0)
            = Some (applyUpdates sn u1 now1)) as Hs1
      by (by apply selectedNote_updateNoteState).
    split.
    + unfold getHistory. simpl. by rewrite lookup_insert_eq.
    + rewrite (handleTextChange_start _ _ _ _ _ Hs1 Hr').
      unfold getHistory at 1. simpl. by rewrite lookup_insert_eq.
Qed.

Lemma push_clears_future_witness :
  future (getHistory "doc1" (handleUndo 2000 (fireTimers 2000 scenario_edited))) <> [] /\
  future (getHistory "doc1"
            (handleTextChange KContent "X" 2500
               (handleUndo 2000 (fireTimers 2000 scenario_edited)))) = [].
Proof.
  destruct push_clears_future as (_ & _ & _ & _ & H).
  apply (H 2000%Z 2500%Z KContent "X" (fireTimers 2000 scenario_edited)
           (Note.mk "doc1" "T" "C1" "C1" 10 0 false)); reflexivity.
Defined.

(** C6. When the selected note changes, the pending timeout of the typing
    session, if any, is cancelled and the timer slot is null; no snapshot
    is pushed: the history map, hence the [past] and [future] of every
    note, and the notes are what they were, and no timeout is scheduled.
    Creating a note, which selects it, keeps the history as well, and
    deleting a note, which may deselect it, keeps the record of every
    other note. *)
Theorem focus_change_resets_timer v st :
  selectedNoteId st <> v ->
  selectedNoteId (setSelectedNoteId v st) = v /\
  typingTimeoutRef (setSelectedNoteId v st) = None /\
  (forall t, typingTimeoutRef st = Some t -> t ∉ (timers (setSelectedNoteId v st)).*1) /\
  timers (setSelectedNoteId v st) ⊆ timers st /\
  history (setSelectedNoteId v st) = history st /\
  notes (setSelectedNoteId v st) = notes st /\
  (forall newId now, history (handleCreateNote newId now st) = history st) /\
  (forall confirmed i j,
     i <> j -> history (handleDeleteNote confirmed i st) !! j = history st !! j).
Proof.
  intros Hne. unfold setSelectedNoteId. rewrite decide_False by done.
  destruct (resetTypingTimer_spec
              (mkApp (notes st) v (history st) (typingTimeoutRef st)
                     (timers st) (nextTimer st))) as (H1 & H2 & H3 & H4 & H5 & H6).
  split_and!; try done.
  - intros newId now. unfold handleCreateNote. by rewrite history_setSelectedNoteId.
  - intros confirmed i j Hij. unfold handleDeleteNote. destruct confirmed; [|done].
    simpl. rewrite lookup_delete_ne by done.
    case_decide; [|done]. by rewrite history_setSelectedNoteId.
Qed.

Lemma focus_change_resets_timer_witness :
  typingTimeoutRef (setSelectedNoteId (Some "doc2") scenario_two) = None /\
  history (setSelectedNoteId (Some "doc2") scenario_two) = history scenario_two.
Proof.
  destruct (focus_change_resets_timer (Some "doc2") scenario_two ltac:(discriminate))
    as (_ & H1 & _ & _ & H2 & _).
  split; [exact H1 | exact H2].
Defined.

Lemma filter_id_idem (i : string) (l : list Note.t) :
  filter (fun n => Note.id n <> i) (filter (fun n => Note.id n <> i) l)
  = filter (fun n => Note.id n <> i) l.
Proof.
  induction l as [|m l IH]; [done|].
  destruct (decide (Note.id m <> i)) as [Hm|Hm].
  - rewrite !(filter_cons_True (fun n => Note.id n <> i)) by done. by rewrite IH.
  - by rewrite !(filter_cons_False (fun n => Note.id n <> i)) by done.
Qed.

Lemma handleDeleteNote_selected i st :
  selectedNoteId (handleDeleteNote true i st) <> Some i.
Proof.
  unfold handleDeleteNote. simpl. case_decide as Hsel.
  - unfold setSelectedNoteId. simpl. rewrite Hsel. rewrite decide_False by done.
    by destruct (resetTypingTimer_spec
                   (mkApp (filter (fun n => Note.id n <> i) (notes st)) None (history st)
                          (typingTimeoutRef st) (timers st) (nextTimer st)))
      as (_ & _ & _ & -> & _).
  - done.
Qed.

Lemma handleDeleteNote_fixed i st :
  selectedNoteId st <> Some i ->
  history st !! i = None ->
  filter (fun n => Note.id n <> i) (notes st) = notes st ->
  handleDeleteNote true i st = st.
Proof.
  intros Hsel Hh Hn. unfold handleDeleteNote. rewrite decide_False by done.
  destruct st as [ns sel hist r ts nt]. unfold setHistory, setNotes. simpl in *.
  by rewrite Hn, delete_id.
Qed.

(** C8. After a confirmed deletion of the note [i] the history map has no
    record for [i], so [canUndo] and [canRedo], evaluated with [i] as the
    selected note, are false, and [i] is not the selected note any more;
    when there is no record for [i], the deletion leaves the history map
    as it is, and deleting twice is the same as deleting once. *)
Theorem delete_purges_history i st :
  history (handleDeleteNote true i st) !! i = None /\
  canUndoOf (history (handleDeleteNote true i st)) (Some i) = false /\
  canRedoOf (history (handleDeleteNote true i st)) (Some i) = false /\
  selectedNoteId (handleDeleteNote true i st) <> Some i /\
  (history st !! i = None -> history (handleDeleteNote true i st) = history st) /\
  handleDeleteNote true i (handleDeleteNote true i st) = handleDeleteNote true i st.
Proof.
  assert (history (handleDeleteNote true i st) = delete i (history st)) as Hd.
  { unfold handleDeleteNote. simpl. case_decide; [|done].
    by rewrite history_setSelectedNoteId. }
  assert (history (handleDeleteNote true i st) !! i = None) as Hn
    by (rewrite Hd; apply lookup_delete_eq).
  split_and!.
  - done.
  - unfold canUndoOf. rewrite Hn. by destruct (truthyId (Some i)).
  - unfold canRedoOf. rewrite Hn. by destruct (truthyId (Some i)).
  - apply handleDeleteNote_selected.
  - intros Habs. rewrite Hd. by apply delete_id.
  - pose proof (handleDeleteNote_selected i st) as Hsel.
    set (st1 := handleDeleteNote true i st) in *.
    assert (notes st1 = filter (fun n => Note.id n <> i) (notes st)) as Hnotes.
    { unfold st1, handleDeleteNote. simpl. case_decide; [|done].
      unfold setSelectedNoteId. simpl. case_decide; [done|].
      by destruct (resetTypingTimer_spec
                     (mkApp (filter (fun n => Note.id n <> i) (notes st)) None (history st)
                            (typingTimeoutRef st) (timers st) (nextTimer st)))
        as (_ & _ & -> & _). }
    apply handleDeleteNote_fixed; [done|done|].
    rewrite Hnotes. apply filter_id_idem.
Qed.

Lemma delete_purges_history_witness :
  history (handleDeleteNote true "doc2" scenario_two) = history scenario_two.
Proof.
  destruct (delete_purges_history "doc2" scenario_two) as (_ & _ & _ & _ & H & _).
  apply H. reflexivity.
Defined.

(** The shortcuts on key events whose key is the small letter: while a
    note is selected ([selectedNoteId] truthy), a key event with Meta or
    Ctrl and key [z] runs undo when Shift is not pressed and redo when it
    is; a key event with Meta or Ctrl and key [y] runs redo. In each case
    the browser's default action is prevented. *)
Theorem keyboard_shortcuts e now st :
  truthyId (selectedNoteId st) = true ->
  (metaKey e || ctrlKey e) = true ->
  (key e = "z" -> shiftKey e = false ->
   handleKeyDown e now st = (true, handleUndo now st)) /\
  (key e = "z" -> shiftKey e = true ->
   handleKeyDown e now st = (true, handleRedo now st)) /\
  (key e = "y" -> handleKeyDown e now st = (true, handleRedo now st)).
Proof.
  intros Hsel Hmod. unfold handleKeyDown. rewrite Hsel, Hmod. simpl.
  split_and!.
  - intros -> ->. reflexivity.
  - intros -> ->. reflexivity.
  - intros ->. reflexivity.
Qed.

Lemma keyboard_shortcuts_witness :
  handleKeyDown (mkKey false true false "z") 20 scenario_mid
    = (true, handleUndo 20 scenario_mid) /\
  handleKeyDown (mkKey true false true "z") 20 scenario_mid
    = (true, handleRedo 20 scenario_mid) /\
  handleKeyDown (mkKey false true false "y") 20 scenario_mid
    = (true, handleRedo 20 scenario_mid).
Proof.
  split_and!.
  - destruct (keyboard_shortcuts (mkKey false true false "z") 20 scenario_mid
                eq_refl eq_refl) as (H & _ & _).
    exact (H eq_refl eq_refl).
  - destruct (keyboard_shortcuts (mkKey true false true "z") 20 scenario_mid
                eq_refl eq_refl) as (_ & H & _).
    exact (H eq_refl eq_refl).
  - destruct (keyboard_shortcuts (mkKey false true false "y") 20 scenario_mid
                eq_refl eq_refl) as (_ & _ & H).
    exact (H eq_refl).
Defined.

(** C9. Meta or Ctrl with Shift and Z is to run redo, and Meta or Ctrl
    with Z undo; the code misses the key events whose key is the capital
    letter, as it is with Shift or Caps Lock: [e.key === 'z'] is an exact
    comparison, so whatever Meta, Ctrl and Shift are, such an event runs
    nothing and its default action is not prevented. With a note selected
    that has a snapshot to redo, Ctrl, Shift and [Z] leave the state as it
    is, where the same event with [z] runs redo and changes the note. *)
Theorem keyboard_capital_z_ignored :
  (forall meta ctrl shift now st,
     handleKeyDown (mkKey meta ctrl shift "Z") now st = (false, st)) /\
  truthyId (selectedNoteId scenario_mid) = true /\
  canUndo scenario_mid = true /\
  canRedo scenario_mid = true /\
  handleKeyDown (mkKey false true true "Z") 20 scenario_mid = (false, scenario_mid) /\
  handleKeyDown (mkKey false true false "Z") 20 scenario_mid = (false, scenario_mid) /\
  handleKeyDown (mkKey false true true "z") 20 scenario_mid
    = (true, handleRedo 20 scenario_mid) /\
  snapshotOf <$> selectedNote (handleRedo 20 scenario_mid) = Some (mkSnapshot "T" "C2") /\
  snapshotOf <$> selectedNote scenario_mid = Some (mkSnapshot "T" "C1").
Proof.
  split_and!; try reflexivity.
  intros meta ctrl shift now st. unfold handleKeyDown. simpl.
  rewrite !andb_false_r. by destruct (negb _).
Qed.

(** ** The typing session *)

Section TypingSession.
Implicit Types (st : AppState) (sn n : Note.t) (h : positive) (i : string) (now t d : Z).

Lemma timerInv_ext st st' :
  typingTimeoutRef st' = typingTimeoutRef st -> timers st' = timers st ->
  timerInv st -> timerInv st'.
Proof. unfold timerInv. by intros -> ->. Qed.

Lemma inSession_timerInv st t : inSession st t -> timerInv st.
Proof. intros (h & Hr & Ht). unfold timerInv. rewrite Hr. eauto. Qed.

Lemma fireTimers_none now st : timers st = [] -> fireTimers now st = st.
Proof. intros Ht. unfold fireTimers. by rewrite Ht. Qed.

Lemma fireTimers_not_due now st h d :
  timers st = [(h, d)] -> (now < d)%Z -> fireTimers now st = st.
Proof.
  intros Ht Hd. unfold fireTimers. rewrite Ht.
  rewrite (filter_cons_False (fun p : positive * Z => (p.2 <= now)%Z)) by (simpl; lia).
  done.
Qed.

Lemma fireTimers_due now st h d :
  timers st = [(h, d)] -> (d <= now)%Z ->
  fireTimers now st =
    mkApp (notes st) (selectedNoteId st) (history st) None [] (nextTimer st).
Proof.
  intros Ht Hd. unfold fireTimers. rewrite Ht.
  rewrite (filter_cons_True (fun p : positive * Z => (p.2 <= now)%Z)) by (simpl; lia).
  rewrite (filter_cons_False (fun p : positive * Z => (now < p.2)%Z)) by (simpl; lia).
  done.
Qed.

Lemma fireTimers_frame now st :
  notes (fireTimers now st) = notes st /\
  selectedNoteId (fireTimers now st) = selectedNoteId st /\
  history (fireTimers now st) = history st.
Proof. unfold fireTimers. by destruct (filter _ _). Qed.

Lemma selectedNote_fireTimers now st : selectedNote (fireTimers now st) = selectedNote st.
Proof.
  destruct (fireTimers_frame now st) as (Hn & Hs & _).
  unfold selectedNote. by rewrite Hn, Hs.
Qed.

Lemma timerInv_fireTimers now st : timerInv st -> timerInv (fireTimers now st).
Proof.
  unfold timerInv at 1. destruct (typingTimeoutRef st) as [h|] eqn:Hr.
  - intros [d Ht]. destruct (decide (d <= now)%Z).
    + by rewrite (fireTimers_due _ _ _ _ Ht).
    + rewrite (fireTimers_not_due _ _ _ _ Ht) by lia.
      unfold timerInv. rewrite Hr. eauto.
  - intros Ht. rewrite fireTimers_none by done. unfold timerInv. by rewrite Hr.
Qed.

(** When the slot is null once the due timeouts have fired, nothing is
    pending any more. *)
Lemma fireTimers_idle now st :
  timerInv st -> typingTimeoutRef (fireTimers now st) = None ->
  timers (fireTimers now st) = [].
Proof.
  intros Hinv%(timerInv_fireTimers now) Hr. unfold timerInv in Hinv.
  by rewrite Hr in Hinv.
Qed.

Lemma timerInv_resetTypingTimer st : timerInv st -> timerInv (resetTypingTimer st).
Proof.
  unfold timerInv, resetTypingTimer.
  destruct (typingTimeoutRef st) as [h|] eqn:Hr; simpl.
  - intros [d ->].
    by rewrite (filter_cons_False (fun p : positive * Z => p.1 <> h)) by (simpl; tauto).
  - by rewrite Hr.
Qed.

Lemma timerInv_setSelectedNoteId v st : timerInv st -> timerInv (setSelectedNoteId v st).
Proof.
  intros Hinv. unfold setSelectedNoteId. case_decide; [done|].
  by apply timerInv_resetTypingTimer.
Qed.

Lemma timerInv_handleTextChange k value now st :
  timerInv st -> timerInv (handleTextChange k value now st).
Proof.
  intros Hinv. destruct (selectedNote st) as [sn|] eqn:Hs.
  2: { unfold handleTextChange. by rewrite Hs. }
  unfold timerInv in Hinv. destruct (typingTimeoutRef st) as [h|] eqn:Hr.
  - destruct Hinv as [d Ht]. rewrite (handleTextChange_continue _ _ _ _ _ _ Hs Hr).
    unfold timerInv. simpl. rewrite Ht.
    rewrite (filter_cons_False (fun p : positive * Z => p.1 <> h)) by (simpl; tauto).
    eauto.
  - rewrite (handleTextChange_start _ _ _ _ _ Hs Hr). unfold timerInv. simpl.
    rewrite Hinv. eauto.
Qed.

Lemma timerInv_handle ev now st : timerInv st -> timerInv (handle ev now st).
Proof.
  intros Hinv. destruct ev as [k value| | |v|confirmed i|newId|e]; simpl.
  - by apply timerInv_handleTextChange.
  - destruct (handleUndo_timer now st) as (Hr & Ht & _). by eapply timerInv_ext.
  - destruct (handleRedo_timer now st) as (Hr & Ht & _). by eapply timerInv_ext.
  - by apply timerInv_setSelectedNoteId.
  - unfold handleDeleteNote. destruct confirmed; [|done].
    apply (timerInv_ext (if decide (selectedNoteId st = Some i)
                         then setSelectedNoteId None
                                (setNotes (filter (fun n => Note.id n <> i)) st)
                         else setNotes (filter (fun n => Note.id n <> i)) st));
      [done..|].
    case_decide; [|done]. by apply timerInv_setSelectedNoteId.
  - unfold handleCreateNote. by apply timerInv_setSelectedNoteId.
  - unfold handleKeyDown. destruct (negb _); [done|].
    destruct (_ && _); simpl.
    + destruct (shiftKey e); simpl.
      * destruct (handleRedo_timer now st) as (Hr & Ht & _). by eapply timerInv_ext.
      * destruct (handleUndo_timer now st) as (Hr & Ht & _). by eapply timerInv_ext.
    + destruct (_ && _); simpl; [|done].
      destruct (handleRedo_timer now st) as (Hr & Ht & _). by eapply timerInv_ext.
Qed.

(** The invariant holds along every run of events. *)
Lemma timerInv_run evs st : timerInv st -> timerInv (run evs st).
Proof.
  revert st. induction evs as [|[t ev] evs IH]; intros st Hinv; [done|].
  simpl. apply IH. unfold step. simpl.
  by apply timerInv_handle, timerInv_fireTimers.
Qed.

(** In particular along every run from a state with a null slot and no
    pending timeout, as the component is when it mounts. *)
Lemma timerInv_reachable evs st :
  typingTimeoutRef st = None -> timers st = [] -> timerInv (run evs st).
Proof.
  intros Hr Ht. apply timerInv_run. unfold timerInv. by rewrite Hr.
Qed.

End TypingSession.

Section Sessions.
Implicit Types (st : AppState) (sn n : Note.t) (h : positive) (i : string) (now t d : Z).

(** The first edit of a session: one snapshot is pushed. *)
Lemma step_edit_start st sn t k value :
  timerInv st ->
  typingTimeoutRef (fireTimers t st) = None ->
  selectedNote st = Some sn ->
  history (step st (t, TextChange k value)) =
    <[Note.id sn := mkHistory (past (getHistory (Note.id sn) st) ++ [snapshotOf sn]) []]>
      (history st) /\
  inSession (step st (t, TextChange k value)) t /\
  selectedNote (step st (t, TextChange k value))
    = Some (applyUpdates sn (textUpdates k value sn) t).
Proof.
  intros Hinv Hr Hs. unfold step. simpl.
  pose proof (fireTimers_idle _ _ Hinv Hr) as Ht.
  rewrite <- (selectedNote_fireTimers t st) in Hs.
  destruct (fireTimers_frame t st) as (_ & _ & Hh).
  split_and!.
  - rewrite (handleTextChange_start _ _ _ _ _ Hs Hr). simpl.
    unfold getHistory. by rewrite Hh.
  - rewrite (handleTextChange_start _ _ _ _ _ Hs Hr).
    exists (nextTimer (fireTimers t st)). simpl. by rewrite Ht.
  - by apply handleTextChange_selectedNote.
Qed.

(** An edit that arrives before the quiet interval has elapsed: nothing
    is pushed and the session goes on. *)
Lemma step_edit_continue st sn t t' k value :
  inSession st t ->
  (t' - t < QUIET_INTERVAL)%Z ->
  selectedNote st = Some sn ->
  history (step st (t', TextChange k value)) = history st /\
  inSession (step st (t', TextChange k value)) t' /\
  selectedNote (step st (t', TextChange k value))
    = Some (applyUpdates sn (textUpdates k value sn) t').
Proof.
  intros (h & Hr & Ht) Hgap Hs. unfold step. simpl.
  rewrite (fireTimers_not_due _ _ _ _ Ht) by lia.
  split_and!.
  - by rewrite (handleTextChange_continue _ _ _ _ _ _ Hs Hr).
  - rewrite (handleTextChange_continue _ _ _ _ _ _ Hs Hr).
    exists (nextTimer st). simpl. rewrite Ht.
    by rewrite (filter_cons_False (fun p : positive * Z => p.1 <> h)) by (simpl; tauto).
  - by apply handleTextChange_selectedNote.
Qed.

(** Once the quiet interval has elapsed the timeout has fired. *)
Lemma inSession_elapsed st t t' :
  inSession st t -> (t' - t > QUIET_INTERVAL)%Z ->
  typingTimeoutRef (fireTimers t' st) = None.
Proof.
  intros (h & Hr & Ht) Hgap. by rewrite (fireTimers_due _ _ _ _ Ht) by lia.
Qed.

Lemma run_edits_continue edits : forall st sn t,
  inSession st t ->
  selectedNote st = Some sn ->
  gapsUnder t (map (fun e => e.1.1) edits) ->
  history (run (editEvents edits) st) = history st.
Proof.
  induction edits as [|[[t' k] value] edits IH]; intros st sn t Hin Hs Hgaps; [done|].
  simpl in Hgaps. destruct Hgaps as [Hgap Hgaps].
  destruct (step_edit_continue st sn t t' k value Hin Hgap Hs) as (Hh & Hin' & Hs').
  simpl. rewrite (IH _ _ _ Hin' Hs' Hgaps). exact Hh.
Qed.

End Sessions.

(** C4. Starting with the timer slot idle when the first edit arrives, a
    run of N >= 1 edits of the selected note in which every edit arrives
    less than the quiet interval (1000 ms) after the one before it pushes
    exactly one snapshot, that of the note before the first edit,
    whatever N is; two edits of which the second arrives more than the
    quiet interval after the first push two snapshots, that of the note
    before the first edit and that of the note before the second. *)
Theorem typing_session_coalesces_and_splits st sn t1 k1 value1 :
  timerInv st ->
  typingTimeoutRef (fireTimers t1 st) = None ->
  selectedNote st = Some sn ->
  (forall rest,
     gapsUnder t1 (map (fun e => e.1.1) rest) ->
     history (run (editEvents ((t1, k1, value1) :: rest)) st) =
       <[Note.id sn := mkHistory (past (getHistory (Note.id sn) st) ++ [snapshotOf sn]) []]>
         (history st)) /\
  (forall t2 k2 value2,
     (t2 - t1 > QUIET_INTERVAL)%Z ->
     history (run (editEvents [(t1, k1, value1); (t2, k2, value2)]) st) =
       <[Note.id sn :=
           mkHistory (past (getHistory (Note.id sn) st)
                        ++ [snapshotOf sn;
                            snapshotOf (applyUpdates sn (textUpdates k1 value1 sn) t1)]) []]>
         (history st)).
Proof.
  intros Hinv Hr Hs.
  destruct (step_edit_start st sn t1 k1 value1 Hinv Hr Hs) as (Hh & Hin & Hs1).
  split.
  - intros rest Hgaps. simpl.
    change (foldl step ?s (editEvents rest)) with (run (editEvents rest) s).
    by rewrite (run_edits_continue rest _ _ _ Hin Hs1 Hgaps).
  - intros t2 k2 value2 Hgap. simpl.
    set (st1 := step st (t1, TextChange k1 value1)) in *.
    set (sn1 := applyUpdates sn (textUpdates k1 value1 sn) t1) in *.
    destruct (step_edit_start st1 sn1 t2 k2 value2
                (inSession_timerInv _ _ Hin) (inSession_elapsed _ _ _ Hin Hgap) Hs1)
      as (Hh2 & _ & _).
    rewrite Hh2. unfold getHistory at 1. rewrite Hh.
    change (Note.id sn1) with (Note.id sn).
    rewrite lookup_insert_eq, insert_insert_eq. simpl.
    by rewrite <- app_assoc.
Qed.

Lemma typing_session_coalesces_and_splits_witness :
  history (run (editEvents [(10%Z, KContent, "C1"); (500%Z, KContent, "C2");
                            (1400%Z, KTitle, "T2")]) scenario0)
    = {[ "doc1" := mkHistory [mkSnapshot "T" "C"] [] ]} /\
  history (run (editEvents [(10%Z, KContent, "C1"); (1011%Z, KContent, "C2")]) scenario0)
    = {[ "doc1" := mkHistory [mkSnapshot "T" "C"; mkSnapshot "T" "C1"] [] ]}.
Proof.
  assert (timerInv scenario0) as Hinv by reflexivity.
  destruct (typing_session_coalesces_and_splits scenario0 doc1 10%Z KContent "C1"
              Hinv eq_refl eq_refl) as [H1 H2].
  split.
  - rewrite (H1 [(500%Z, KContent, "C2"); (1400%Z, KTitle, "T2")]).
    + reflexivity.
    + simpl. unfold QUIET_INTERVAL. lia.
  - rewrite (H2 1011%Z KContent "C2").
    + reflexivity.
    + unfold QUIET_INTERVAL. lia.
Defined.

(** ** Undo, redo and the typing session *)

(** C5. Undo and redo are to end the typing session before they run; the
    code does not: neither handler reads or writes the timer slot or the
    pending timeouts. After an edit at time 10 and an undo at time 20 the
    timeout of the session is still pending and the slot holds it, and so
    it is after a redo at time 30. The edit at time 40 therefore starts
    no session: it pushes no snapshot, the restored content is on neither
    stack and the redo stack is kept, where [saveToHistory] says "New
    change clears future (redo stack)"; a redo at time 50 then gives the
    note the content that was undone. *)
Theorem undo_redo_leave_session_pending :
  (forall now st,
     typingTimeoutRef (handleUndo now st) = typingTimeoutRef st /\
     timers (handleUndo now st) = timers st /\
     typingTimeoutRef (handleRedo now st) = typingTimeoutRef st /\
     timers (handleRedo now st) = timers st) /\
  typingTimeoutRef (run [(10%Z, TextChange KContent "C1"); (20%Z, Undo)] scenario0)
    = Some 1%positive /\
  timers (run [(10%Z, TextChange KContent "C1"); (20%Z, Undo)] scenario0)
    = [(1%positive, 1010%Z)] /\
  snapshotOf <$> selectedNote (run [(10%Z, TextChange KContent "C1"); (20%Z, Undo)] scenario0)
    = Some (mkSnapshot "T" "C") /\
  history (run [(10%Z, TextChange KContent "C1"); (20%Z, Undo)] scenario0) !! "doc1"
    = Some (mkHistory [] [mkSnapshot "T" "C1"]) /\
  typingTimeoutRef (run [(10%Z, TextChange KContent "C1"); (20%Z, Undo); (30%Z, Redo)]
                        scenario0) = Some 1%positive /\
  snapshotOf <$>
    selectedNote (run [(10%Z, TextChange KContent "C1"); (20%Z, Undo);
                       (40%Z, TextChange KContent "X")] scenario0)
    = Some (mkSnapshot "T" "X") /\
  history (run [(10%Z, TextChange KContent "C1"); (20%Z, Undo);
                (40%Z, TextChange KContent "X")] scenario0) !! "doc1"
    = Some (mkHistory [] [mkSnapshot "T" "C1"]) /\
  snapshotOf <$>
    selectedNote (run [(10%Z, TextChange KContent "C1"); (20%Z, Undo);
                       (40%Z, TextChange KContent "X"); (50%Z, Redo)] scenario0)
    = Some (mkSnapshot "T" "C1") /\
  history (run [(10%Z, TextChange KContent "C1"); (20%Z, Undo);
                (40%Z, TextChange KContent "X"); (50%Z, Redo)] scenario0) !! "doc1"
    = Some (mkHistory [mkSnapshot "T" "X"] []).
Proof.
  split.
  - intros now st.
    destruct (handleUndo_timer now st) as (Hu1 & Hu2 & _).
    destruct (handleRedo_timer now st) as (Hr1 & Hr2 & _).
    by split_and!.
  - vm_compute. by split_and!.
Qed.

(** ** Sorting *)

Section Sorting.
Context {A : Type} (cmp : A -> A -> Z).

Lemma sortInsert_Permutation x (l : list A) : sortInsert cmp x l ≡ₚ x :: l.
Proof.
  induction l as [|y l IH]; simpl; [done|].
  destruct (cmp x y <=? 0)%Z; [done|]. rewrite IH. apply Permutation_swap.
Qed.

Lemma Array_sort_Permutation (l : list A) : Array_sort cmp l ≡ₚ l.
Proof.
  induction l as [|x l IH]; simpl; [done|].
  by rewrite sortInsert_Permutation, IH.
Qed.

Lemma sortInsert_HdRel x y (l : list A) :
  (cmp y x <= 0)%Z -> HdRel (fun a b => (cmp a b <= 0)%Z) y l ->
  HdRel (fun a b => (cmp a b <= 0)%Z) y (sortInsert cmp x l).
Proof.
  intros Hyx Hy. destruct l as [|z l]; simpl; [by constructor|].
  destruct (cmp x z <=? 0)%Z; constructor; [done|].
  by inversion Hy.
Qed.

Lemma sortInsert_Sorted x (l : list A) :
  (forall a b, (cmp a b <= 0)%Z \/ (cmp b a <= 0)%Z) ->
  Sorted (fun a b => (cmp a b <= 0)%Z) l ->
  Sorted (fun a b => (cmp a b <= 0)%Z) (sortInsert cmp x l).
Proof.
  intros Htotal. induction l as [|y l IH]; intros Hs; simpl.
  - by repeat constructor.
  - destruct (cmp x y <=? 0)%Z eqn:E.
    + constructor; [done|]. constructor. lia.
    + inversion Hs as [|? ? Hs' Hhd]; subst. constructor; [by apply IH|].
      apply sortInsert_HdRel; [|done].
      destruct (Htotal x y); lia.
Qed.

Lemma Array_sort_Sorted (l : list A) :
  (forall a b, (cmp a b <= 0)%Z \/ (cmp b a <= 0)%Z) ->
  Sorted (fun a b => (cmp a b <= 0)%Z) (Array_sort cmp l).
Proof.
  intros Htotal. induction l as [|x l IH]; simpl; [constructor|].
  by apply sortInsert_Sorted.
Qed.

(** A list that is in order already is left as it is. *)
Lemma Array_sort_id (l : list A) :
  Sorted (fun a b => (cmp a b <= 0)%Z) l -> Array_sort cmp l = l.
Proof.
  induction l as [|x l IH]; intros Hs; simpl; [done|].
  inversion Hs as [|? ? Hs' Hhd]; subst. rewrite IH by done.
  destruct Hhd as [|y l' Hxy]; simpl; [done|].
  by rewrite (proj2 (Z.leb_le _ _) Hxy).
Qed.

End Sorting.

Lemma Sorted_iff_rel {A} (R1 R2 : A -> A -> Prop) (l : list A) :
  (forall a b, R1 a b <-> R2 a b) -> Sorted R1 l -> Sorted R2 l.
Proof.
  intros Hiff. induction 1 as [|x l Hs IH Hhd]; constructor; [done|].
  destruct Hhd; constructor. by apply Hiff.
Qed.

Lemma List_filter_Permutation {A} (f : A -> bool) (l1 l2 : list A) :
  l1 ≡ₚ l2 -> List.filter f l1 ≡ₚ List.filter f l2.
Proof.
  induction 1 as [|x l1 l2 _ IH|x y l|l1 l2 l3 _ IH1 _ IH2]; simpl.
  - done.
  - destruct (f x); by rewrite IH.
  - destruct (f x), (f y); try done. apply Permutation_swap.
  - by rewrite IH1.
Qed.

Lemma List_filter_and {A} (f g : A -> bool) (l : list A) :
  List.filter f (List.filter g l) = List.filter (fun x => g x && f x) l.
Proof.
  induction l as [|x l IH]; simpl; [done|].
  destruct (g x); simpl; [|done]. destruct (f x); by rewrite IH.
Qed.

Lemma List_filter_true {A} (f : A -> bool) (l : list A) :
  (forall x, f x = true) -> List.filter f l = l.
Proof.
  intros Hf. induction l as [|x l IH]; simpl; [done|]. by rewrite Hf, IH.
Qed.

Lemma List_filter_sublist {A} (f : A -> bool) (l : list A) :
  sublist (List.filter f l) l.
Proof.
  induction l as [|x l IH]; simpl; [constructor|]. destruct (f x); by constructor.
Qed.

Lemma List_filter_all {A} (f : A -> bool) (l : list A) :
  (forall x, x ∈ l -> f x = true) -> List.filter f l = l.
Proof.
  induction l as [|x l IH]; intros Hf; simpl; [done|].
  rewrite Hf by left. f_equal. apply IH. intros y Hy. apply Hf. by right.
Qed.

Lemma List_filter_idem {A} (f : A -> bool) (l : list A) :
  List.filter f (List.filter f l) = List.filter f l.
Proof.
  rewrite List_filter_and. apply List.filter_ext. intros x. by destruct (f x).
Qed.

(** ** The order of JavaScript strings *)

Lemma String_ltb_leb (a b : string) : String.ltb a b = negb (String.leb b a).
Proof.
  unfold String.ltb, String.leb. rewrite (String.compare_antisym b a).
  by destruct (String.compare a b).
Qed.

Lemma String_leb_iff (a b : string) :
  String.leb a b = true <-> a = b \/ OrderedTypeEx.String_as_OT.lt a b.
Proof.
  unfold String.leb. destruct (String.compare a b) eqn:E.
  - apply OrderedTypeEx.String_as_OT.cmp_eq in E. naive_solver.
  - apply OrderedTypeEx.String_as_OT.cmp_lt in E. naive_solver.
  - split; [done|]. intros [->|Hlt].
    + assert (String.compare b b = Eq) as E'
        by (by apply OrderedTypeEx.String_as_OT.cmp_eq).
      congruence.
    + apply OrderedTypeEx.String_as_OT.cmp_lt in Hlt.
      unfold OrderedTypeEx.String_as_OT.cmp in Hlt. congruence.
Qed.

Lemma String_leb_trans (a b c : string) :
  String.leb a b = true -> String.leb b c = true -> String.leb a c = true.
Proof.
  rewrite !String_leb_iff. intros [->|Hab] [->|Hbc]; eauto.
  right. eapply OrderedTypeEx.String_as_OT.lt_trans; eauto.
Qed.

(** ** The lists of todos and notes shown *)

Section Shown.
Variables trim toLowerCase : string -> string.

Lemma compareTodos_le a b : (compareTodos a b <= 0)%Z <-> todoBefore a b.
Proof.
  unfold compareTodos, todoBefore.
  destruct (Todo.completed a), (Todo.completed b); simpl; split; intros H;
    try lia; try (destruct H as [[? ?]|[? ?]]; (done || lia)); eauto;
    try (right; split; [done|lia]).
Qed.

Lemma todoBefore_total a b : todoBefore a b \/ todoBefore b a.
Proof.
  unfold todoBefore.
  destruct (Todo.completed a), (Todo.completed b);
    destruct (Z.le_ge_cases (Todo.updatedAt a) (Todo.updatedAt b)); eauto.
Qed.

Lemma todoBefore_trans a b c : todoBefore a b -> todoBefore b c -> todoBefore a c.
Proof.
  unfold todoBefore. intros [[? ?]|[? ?]] [[? ?]|[? ?]].
  - congruence.
  - left. split; congruence.
  - left. split; congruence.
  - right. split; [congruence|lia].
Qed.

Lemma sortValLt_le k a b :
  sortValLt toLowerCase k a b = true <-> ~ sortValLe toLowerCase k b a.
Proof.
  destruct k; simpl.
  - rewrite Z.ltb_lt. lia.
  - rewrite Z.ltb_lt. lia.
  - rewrite String_ltb_leb. by destruct (String.leb _ _).
Qed.

Lemma sortValLe_total k a b : sortValLe toLowerCase k a b \/ sortValLe toLowerCase k b a.
Proof. destruct k; simpl; [lia|lia|apply String.leb_total]. Qed.

Lemma sortValLe_trans k a b c :
  sortValLe toLowerCase k a b -> sortValLe toLowerCase k b c -> sortValLe toLowerCase k a c.
Proof. destruct k; simpl; [lia|lia|apply String_leb_trans]. Qed.

Lemma sortValLt_false k a b :
  sortValLt toLowerCase k a b = false <-> sortValLe toLowerCase k b a.
Proof.
  destruct k; simpl.
  - rewrite Z.ltb_ge. lia.
  - rewrite Z.ltb_ge. lia.
  - rewrite String_ltb_leb. by destruct (String.leb _ _).
Qed.

Lemma compareNotes_le cfg a b :
  (compareNotes toLowerCase cfg a b <= 0)%Z <-> noteBefore toLowerCase cfg a b.
Proof.
  unfold compareNotes, noteBefore.
  destruct (sortValLt toLowerCase (SortConfig.key cfg) a b) eqn:Eab.
  - pose proof (proj1 (sortValLt_le _ _ _) Eab) as Hnba.
    assert (sortValLe toLowerCase (SortConfig.key cfg) a b) as Hab
      by (destruct (sortValLe_total (SortConfig.key cfg) a b); done).
    destruct (SortConfig.direction cfg); split; (lia || done).
  - pose proof (proj1 (sortValLt_false _ _ _) Eab) as Hba.
    destruct (sortValLt toLowerCase (SortConfig.key cfg) b a) eqn:Eba.
    + pose proof (proj1 (sortValLt_le _ _ _) Eba) as Hnab.
      destruct (SortConfig.direction cfg); split; (lia || done).
    + pose proof (proj1 (sortValLt_false _ _ _) Eba) as Hab.
      destruct (SortConfig.direction cfg); split; (lia || done).
Qed.

Lemma noteBefore_total cfg a b :
  noteBefore toLowerCase cfg a b \/ noteBefore toLowerCase cfg b a.
Proof.
  unfold noteBefore. destruct (SortConfig.direction cfg); apply sortValLe_total.
Qed.

Lemma noteBefore_trans cfg a b c :
  noteBefore toLowerCase cfg a b -> noteBefore toLowerCase cfg b c ->
  noteBefore toLowerCase cfg a c.
Proof.
  unfold noteBefore. destruct (SortConfig.direction cfg); eauto using sortValLe_trans.
Qed.

Lemma filteredTodos_Sorted q (l : list Todo.t) :
  Sorted todoBefore (filteredTodos trim toLowerCase q l).
Proof.
  unfold filteredTodos. eapply Sorted_iff_rel; [apply compareTodos_le|].
  apply Array_sort_Sorted. intros a b. rewrite !compareTodos_le.
  apply todoBefore_total.
Qed.

Lemma filteredNotes_Sorted (l : list Note.t) q v cfg :
  Sorted (noteBefore toLowerCase cfg) (filteredNotes trim toLowerCase l q v cfg).
Proof.
  unfold filteredNotes. eapply Sorted_iff_rel; [apply compareNotes_le|].
  apply Array_sort_Sorted. intros a b. rewrite !compareNotes_le.
  apply noteBefore_total.
Qed.

Lemma filteredTodos_shown q (l : list Todo.t) :
  filteredTodos trim toLowerCase q l ≡ₚ List.filter (todoShown trim toLowerCase q) l.
Proof.
  unfold filteredTodos, todoShown. rewrite Array_sort_Permutation.
  destruct (bool_decide (trim q = "")); cbv beta iota zeta; [|done].
  by rewrite List_filter_true.
Qed.

Lemma filteredNotes_shown (l : list Note.t) q v cfg :
  filteredNotes trim toLowerCase l q v cfg
    ≡ₚ List.filter (noteShown trim toLowerCase q v) l.
Proof.
  unfold filteredNotes. rewrite Array_sort_Permutation.
  apply Permutation_refl'. unfold noteShown.
  destruct (bool_decide (trim q = "")); destruct v; cbv beta iota zeta;
    rewrite ?List_filter_and;
    first [ symmetry; by apply List_filter_true
          | apply List.filter_ext; intros n; simpl; by rewrite ?andb_true_r ].
Qed.

End Shown.

#[local] Instance todoBefore_Transitive : Transitive todoBefore.
Proof. intros a b c. apply todoBefore_trans. Qed.

#[local] Instance noteBefore_Transitive toLowerCase cfg :
  Transitive (noteBefore toLowerCase cfg).
Proof. intros a b c. apply noteBefore_trans. Qed.

Lemma filteredNotes_StronglySorted trim toLowerCase (l : list Note.t) q v cfg :
  StronglySorted (noteBefore toLowerCase cfg) (filteredNotes trim toLowerCase l q v cfg).
Proof. apply Sorted_StronglySorted; first [apply filteredNotes_Sorted | apply _]. Qed.

Lemma filteredNotes_elem trim toLowerCase (l : list Note.t) q v cfg n :
  n ∈ filteredNotes trim toLowerCase l q v cfg <->
  n ∈ l /\ noteShown trim toLowerCase q v n = true.
Proof.
  rewrite (filteredNotes_shown trim toLowerCase l q v cfg).
  by rewrite !list_elem_of_In, List.filter_In.
Qed.

(** X1. The todos shown are in order: every todo stands before the todos
    shown after it, an incomplete one before a completed one and, within
    the same state of completion, the one updated later first. *)
Theorem filteredTodos_order trim toLowerCase q (l : list Todo.t) :
  StronglySorted todoBefore (filteredTodos trim toLowerCase q l).
Proof. apply Sorted_StronglySorted; first [apply filteredTodos_Sorted | apply _]. Qed.

(** X2. The todos shown are the todos that pass the search filter, each
    as often as it is in the list: all of them when the trimmed query is
    empty, and otherwise those whose text in lower case includes the
    query in lower case (the query as typed, not trimmed). *)
Theorem filteredTodos_selects trim toLowerCase q (l : list Todo.t) :
  filteredTodos trim toLowerCase q l ≡ₚ List.filter (todoShown trim toLowerCase q) l /\
  (trim q = "" -> filteredTodos trim toLowerCase q l ≡ₚ l) /\
  (trim q <> "" ->
   forall t, t ∈ filteredTodos trim toLowerCase q l <->
             t ∈ l /\ includes (toLowerCase (Todo.text t)) (toLowerCase q) = true).
Proof.
  pose proof (filteredTodos_shown trim toLowerCase q l) as Hp. split_and!.
  - done.
  - intros Hq. rewrite Hp. unfold todoShown.
    rewrite bool_decide_eq_true_2 by done. by rewrite List_filter_true.
  - intros Hq t. rewrite Hp, !list_elem_of_In, List.filter_In. unfold todoShown.
    by rewrite bool_decide_eq_false_2 by done.
Qed.

Lemma filteredTodos_selects_witness :
  filteredTodos asciiTrim asciiLower "  "
    [Todo.mk "a" "Buy milk" true 1 5; Todo.mk "b" "Call Bob" false 2 3]
    ≡ₚ [Todo.mk "a" "Buy milk" true 1 5; Todo.mk "b" "Call Bob" false 2 3] /\
  (Todo.mk "b" "Call Bob" false 2 3
     ∈ filteredTodos asciiTrim asciiLower "BOB"
         [Todo.mk "a" "Buy milk" true 1 5; Todo.mk "b" "Call Bob" false 2 3]).
Proof.
  destruct (filteredTodos_selects asciiTrim asciiLower "  "
              [Todo.mk "a" "Buy milk" true 1 5; Todo.mk "b" "Call Bob" false 2 3])
    as (_ & Hall & _).
  destruct (filteredTodos_selects asciiTrim asciiLower "BOB"
              [Todo.mk "a" "Buy milk" true 1 5; Todo.mk "b" "Call Bob" false 2 3])
    as (_ & _ & Hsome).
  split.
  - apply Hall. reflexivity.
  - apply Hsome; [discriminate|]. split; [|reflexivity].
    apply list_elem_of_In. right. left. reflexivity.
Defined.

(** X3. The notes shown are in the order of the sort configuration: every
    note stands before the notes shown after it, by the chosen key
    ([updatedAt], [createdAt], or the title in lower case compared as
    strings), ascending or descending. *)
Theorem filteredNotes_order trim toLowerCase (l : list Note.t) q v cfg :
  StronglySorted (noteBefore toLowerCase cfg) (filteredNotes trim toLowerCase l q v cfg).
Proof. apply filteredNotes_StronglySorted. Qed.

(** X4. The notes shown are the notes that pass the filters, each as often
    as it is in the list: in the favorites view only the favorites, and,
    unless the trimmed query is empty, only the notes whose title or
    content in lower case includes the query in lower case. With no
    filter the notes shown are all the notes. *)
Theorem filteredNotes_selects trim toLowerCase (l : list Note.t) q v cfg :
  filteredNotes trim toLowerCase l q v cfg
    ≡ₚ List.filter (noteShown trim toLowerCase q v) l /\
  (forall n, n ∈ filteredNotes trim toLowerCase l q v cfg <->
             n ∈ l /\
             (v = ViewFavorites -> Note.isFavorite n = true) /\
             (trim q <> "" ->
              includes (toLowerCase (Note.title n)) (toLowerCase q) = true \/
              includes (toLowerCase (Note.content n)) (toLowerCase q) = true)) /\
  (trim q = "" -> v <> ViewFavorites -> filteredNotes trim toLowerCase l q v cfg ≡ₚ l).
Proof.
  pose proof (filteredNotes_shown trim toLowerCase l q v cfg) as Hp. split_and!.
  - done.
  - intros n. rewrite Hp, !list_elem_of_In, List.filter_In.
    unfold noteShown, noteMatches. rewrite andb_true_iff, !orb_true_iff.
    rewrite bool_decide_eq_true.
    split; intros (Hin & Hv & Hq); (split; [done|]).
    + split; [by intros ->|]. intros Hne. by destruct Hq.
    + split; [destruct v; try done; by apply Hv|].
      destruct (decide (trim q = "")); [by left|right; by apply Hq].
  - intros Hq Hv. rewrite Hp. apply Permutation_refl', List_filter_true.
    intros n. unfold noteShown. rewrite bool_decide_eq_true_2 by done.
    by destruct v.
Qed.

Lemma filteredNotes_selects_witness :
  filteredNotes asciiTrim asciiLower [doc1; scenario_mid_note] " " ViewAll defaultSortConfig
    ≡ₚ [doc1; scenario_mid_note].
Proof.
  destruct (filteredNotes_selects asciiTrim asciiLower [doc1; scenario_mid_note] " "
              ViewAll defaultSortConfig) as (_ & _ & H).
  apply H; [reflexivity|discriminate].
Defined.

(** X5. Showing the list shown again changes nothing: the filters keep
    what they kept and the sort leaves a list that is in order as it is. *)
Theorem filteredNotes_idempotent trim toLowerCase (l : list Note.t) q v cfg :
  filteredNotes trim toLowerCase (filteredNotes trim toLowerCase l q v cfg) q v cfg
  = filteredNotes trim toLowerCase l q v cfg.
Proof.
  assert (forall x, x ∈ filteredNotes trim toLowerCase l q v cfg ->
                    noteShown trim toLowerCase q v x = true) as Hall.
  { intros x. rewrite (filteredNotes_shown trim toLowerCase l q v cfg).
    rewrite list_elem_of_In, List.filter_In. by intros [_ ?]. }
  pose proof (filteredNotes_Sorted trim toLowerCase l q v cfg) as Hs.
  set (r := filteredNotes trim toLowerCase l q v cfg) in *.
  assert (List.filter (noteShown trim toLowerCase q v) r = r) as Hf.
  { clear Hs. induction r as [|x r IH]; simpl; [done|].
    rewrite Hall by left. f_equal. apply IH. intros y Hy. apply Hall. by right. }
  unfold filteredNotes at 1.
  assert ((if bool_decide (trim q = "")
           then match v with
                | ViewFavorites => List.filter Note.isFavorite r
                | _ => r
                end
           else List.filter (noteMatches toLowerCase (toLowerCase q))
                  match v with
                  | ViewFavorites => List.filter Note.isFavorite r
                  | _ => r
                  end) = List.filter (noteShown trim toLowerCase q v) r) as ->.
  { unfold noteShown. destruct (bool_decide (trim q = "")); destruct v;
      rewrite ?List_filter_and;
      first [ symmetry; by apply List_filter_true
            | apply List.filter_ext; intros n; simpl; by rewrite ?andb_true_r ]. }
  rewrite Hf. apply Array_sort_id.
  eapply Sorted_iff_rel; [|exact Hs]. intros a b. symmetry. apply compareNotes_le.
Qed.

Lemma notes_handleTextChange k value now st sn :
  selectedNote st = Some sn ->
  notes (handleTextChange k value now st) =
    map (fun n => if bool_decide (Note.id n = Note.id sn)
                  then applyUpdates n (textUpdates k value sn) now else n) (notes st).
Proof.
  intros Hs. destruct (typingTimeoutRef st) as [t|] eqn:Hr.
  - by rewrite (handleTextChange_continue _ _ _ _ _ _ Hs Hr).
  - by rewrite (handleTextChange_start _ _ _ _ _ Hs Hr).
Qed.

Lemma selectedNote_in st sn : selectedNote st = Some sn -> sn ∈ notes st.
Proof.
  unfold selectedNote. destruct (selectedNoteId st); [|done].
  intros [Hin _]%List.find_some. by apply list_elem_of_In.
Qed.

(** X6. With the initial sort (latest update first), no filter and an
    empty query, the note just edited is the first note shown, provided
    the edit is later than the last update of every note. *)
Theorem edited_note_shown_first trim toLowerCase k value now st sn q :
  selectedNote st = Some sn ->
  (forall n, n ∈ notes st -> (Note.updatedAt n < now)%Z) ->
  trim q = "" ->
  exists n,
    head (filteredNotes trim toLowerCase (notes (handleTextChange k value now st)) q
            ViewAll defaultSortConfig) = Some n /\
    Note.id n = Note.id sn /\ Note.updatedAt n = now.
Proof.
  intros Hs Hold Hq.
  pose proof (filteredNotes_StronglySorted trim toLowerCase
                (notes (handleTextChange k value now st)) q ViewAll defaultSortConfig) as Hsorted.
  assert (filteredNotes trim toLowerCase (notes (handleTextChange k value now st)) q
            ViewAll defaultSortConfig ≡ₚ notes (handleTextChange k value now st)) as Hperm.
  { rewrite filteredNotes_shown. apply Permutation_refl', List_filter_true.
    intros n. unfold noteShown. by rewrite bool_decide_eq_true_2. }
  set (r := filteredNotes _ _ _ _ _ _) in *.
  rewrite (notes_handleTextChange _ _ _ _ _ Hs) in Hperm.
  set (f := fun n => if bool_decide (Note.id n = Note.id sn)
                     then applyUpdates n (textUpdates k value sn) now else n) in *.
  assert (f sn ∈ r) as Hedited.
  { rewrite Hperm. apply list_elem_of_fmap. exists sn. split; [done|].
    by apply selectedNote_in. }
  destruct r as [|h r']; [by apply not_elem_of_nil in Hedited|].
  exists h. split; [done|].
  assert (now <= Note.updatedAt h)%Z as Hnow.
  { assert (Note.updatedAt (f sn) = now) as Hf
      by (unfold f; by rewrite bool_decide_eq_true_2).
    apply elem_of_cons in Hedited as [<-|Hin]; [lia|].
    apply StronglySorted_inv in Hsorted as [_ Hall].
    rewrite Forall_forall in Hall. specialize (Hall _ Hin).
    unfold noteBefore in Hall. simpl in Hall. lia. }
  assert (h ∈ f <$> notes st) as Hh by (rewrite <- Hperm; left).
  apply list_elem_of_fmap in Hh as (m & -> & Hm).
  unfold f in *. case_bool_decide as Hid; [done|].
  specialize (Hold _ Hm). lia.
Qed.

Lemma edited_note_shown_first_witness :
  exists n,
    head (filteredNotes asciiTrim asciiLower
            (notes (handleTextChange KContent "X" 50 scenario_two)) "" ViewAll
            defaultSortConfig) = Some n /\
    Note.id n = "doc1" /\ Note.updatedAt n = 50%Z.
Proof.
  apply (edited_note_shown_first asciiTrim asciiLower KContent "X" 50 scenario_two
           (Note.mk "doc1" "T" "C1" "C1" 10 0 false) "" eq_refl).
  - intros n Hn. apply list_elem_of_In in Hn.
    destruct Hn as [<-|[<-|[]]]; simpl; lia.
  - reflexivity.
Defined.

(** ** Todos *)

(** X7. Toggling a todo flips [completed] in the todos with that id and
    stamps them with the time of the toggle; every other todo, and the
    id, text and [createdAt] of the toggled ones, are kept. Toggling
    twice gives every todo its state of completion back; of the todos
    toggled only [updatedAt] has changed. *)
Theorem handleToggleTodo_flips i now1 now2 (ts : TodoState) :
  Forall2 (fun t t' =>
             if bool_decide (Todo.id t = i)
             then t' = Todo.mk (Todo.id t) (Todo.text t) (negb (Todo.completed t))
                               (Todo.createdAt t) now1
             else t' = t)
          (todos ts) (todos (handleToggleTodo i now1 ts)) /\
  Forall2 (fun t t' =>
             if bool_decide (Todo.id t = i)
             then t' = Todo.mk (Todo.id t) (Todo.text t) (Todo.completed t)
                               (Todo.createdAt t) now2
             else t' = t)
          (todos ts) (todos (handleToggleTodo i now2 (handleToggleTodo i now1 ts))) /\
  newTodoText (handleToggleTodo i now1 ts) = newTodoText ts.
Proof.
  split_and!; [| |done]; simpl.
  - induction (todos ts) as [|t l IH]; simpl; constructor; [|done].
    by case_bool_decide.
  - induction (todos ts) as [|t l IH]; simpl; constructor; [|done].
    case_bool_decide as Hid; simpl.
    + rewrite bool_decide_eq_true_2 by done. by rewrite negb_involutive.
    + by rewrite bool_decide_eq_false_2.
Qed.

(** X8. Clearing the completed todos, once confirmed, keeps the incomplete
    todos, all of them and in their order, and nothing else; doing it
    again changes nothing, and declining the confirmation changes
    nothing. *)
Theorem handleClearCompletedTodos_keeps_incomplete (ts : TodoState) :
  Forall (fun t => Todo.completed t = false) (todos (handleClearCompletedTodos true ts)) /\
  (forall t, t ∈ todos (handleClearCompletedTodos true ts) <->
             t ∈ todos ts /\ Todo.completed t = false) /\
  sublist (todos (handleClearCompletedTodos true ts)) (todos ts) /\
  handleClearCompletedTodos true (handleClearCompletedTodos true ts)
    = handleClearCompletedTodos true ts /\
  handleClearCompletedTodos false ts = ts.
Proof.
  assert (forall t, t ∈ List.filter (fun t => negb (Todo.completed t)) (todos ts) <->
                    t ∈ todos ts /\ Todo.completed t = false) as Hin.
  { intros t. rewrite !list_elem_of_In, List.filter_In, negb_true_iff. done. }
  split_and!; simpl.
  - apply Forall_forall. intros t Ht. by apply Hin in Ht as [_ ?].
  - done.
  - apply List_filter_sublist.
  - unfold handleClearCompletedTodos. simpl. by rewrite List_filter_idem.
  - done.
Qed.

(** X9. Adding a todo whose text is blank (empty once trimmed) changes
    nothing. Otherwise the new todo, incomplete and with the trimmed
    text, is put in front, the input is emptied, and the new todo is the
    first todo shown when it passes the search filter and no todo has a
    later [updatedAt]. *)
Theorem handleAddTodo_adds trim toLowerCase newId now (ts : TodoState) q :
  (trim (newTodoText ts) = "" -> handleAddTodo trim newId now ts = ts) /\
  (trim (newTodoText ts) <> "" ->
   handleAddTodo trim newId now ts =
     mkTodos (Todo.mk newId (trim (newTodoText ts)) false now now :: todos ts) "" /\
   (todoShown trim toLowerCase q (Todo.mk newId (trim (newTodoText ts)) false now now) = true ->
    (forall t, t ∈ todos ts -> (Todo.updatedAt t <= now)%Z) ->
    head (filteredTodos trim toLowerCase q (todos (handleAddTodo trim newId now ts)))
      = Some (Todo.mk newId (trim (newTodoText ts)) false now now))).
Proof.
  unfold handleAddTodo. split.
  - intros ->. by rewrite bool_decide_eq_true_2.
  - intros Hne. rewrite bool_decide_eq_false_2 by done. split; [done|].
    intros Hshown Hold. simpl.
    set (new := Todo.mk newId (trim (newTodoText ts)) false now now) in *.
    assert (exists l', (forall t, t ∈ l' -> t ∈ todos ts) /\
                       filteredTodos trim toLowerCase q (new :: todos ts)
                       = sortInsert compareTodos new (Array_sort compareTodos l'))
      as (l' & Hl' & ->).
    { unfold filteredTodos, todoShown in *.
      destruct (bool_decide (trim q = "")); simpl in *.
      - by exists (todos ts).
      - rewrite Hshown. eexists. split; [|done].
        intros t. rewrite !list_elem_of_In, List.filter_In. tauto. }
    destruct (Array_sort compareTodos l') as [|y s] eqn:Es; simpl; [done|].
    assert (y ∈ todos ts) as Hy.
    { apply Hl'. rewrite <- (Array_sort_Permutation compareTodos l'), Es. left. }
    assert (compareTodos new y <= 0)%Z as Hle.
    { apply compareTodos_le. unfold todoBefore. simpl.
      destruct (Todo.completed y) eqn:Ec; [by left|right].
      split; [done|]. by apply Hold. }
    by rewrite (proj2 (Z.leb_le _ _) Hle).
Qed.

Lemma handleAddTodo_adds_witness :
  handleAddTodo asciiTrim "n1" 10 (mkTodos [Todo.mk "a" "Buy milk" false 1 5] "   ")
    = mkTodos [Todo.mk "a" "Buy milk" false 1 5] "   " /\
  head (filteredTodos asciiTrim asciiLower ""
          (todos (handleAddTodo asciiTrim "n1" 10
                    (mkTodos [Todo.mk "a" "Buy milk" false 1 5] " Call Bob "))))
    = Some (Todo.mk "n1" "Call Bob" false 10 10).
Proof.
  split.
  - apply (handleAddTodo_adds asciiTrim asciiLower "n1" 10
             (mkTodos [Todo.mk "a" "Buy milk" false 1 5] "   ") "").
    reflexivity.
  - destruct (handleAddTodo_adds asciiTrim asciiLower "n1" 10
                (mkTodos [Todo.mk "a" "Buy milk" false 1 5] " Call Bob ") "")
      as [_ H].
    destruct (H ltac:(discriminate)) as [_ Hhead].
    apply Hhead; [reflexivity|].
    intros t Ht. apply list_elem_of_In in Ht. destruct Ht as [<-|[]]. simpl. lia.
Defined.

(** X10. Deleting a todo removes the todos with that id and keeps the
    others in their order; adding a todo under an id that no todo has and
    then deleting that id gives the list of todos back. *)
Theorem handleDeleteTodo_removes trim i now (ts : TodoState) :
  (forall t, t ∈ todos (handleDeleteTodo i ts) <-> t ∈ todos ts /\ Todo.id t <> i) /\
  sublist (todos (handleDeleteTodo i ts)) (todos ts) /\
  ((forall t, t ∈ todos ts -> Todo.id t <> i) ->
   todos (handleDeleteTodo i (handleAddTodo trim i now ts)) = todos ts).
Proof.
  split_and!; simpl.
  - intros t. rewrite !list_elem_of_In, List.filter_In, negb_true_iff.
    by rewrite bool_decide_eq_false.
  - apply List_filter_sublist.
  - intros Hfresh.
    assert (List.filter (fun t => negb (bool_decide (Todo.id t = i))) (todos ts) = todos ts)
      as Hkeep.
    { apply List_filter_all. intros t Ht.
      by rewrite bool_decide_eq_false_2 by (by apply Hfresh). }
    unfold handleAddTodo. case_bool_decide; simpl; [done|].
    by rewrite bool_decide_eq_true_2.
Qed.

Lemma handleDeleteTodo_removes_witness :
  todos (handleDeleteTodo "n1"
           (handleAddTodo asciiTrim "n1" 10
              (mkTodos [Todo.mk "a" "Buy milk" false 1 5] "Call Bob")))
  = [Todo.mk "a" "Buy milk" false 1 5].
Proof.
  destruct (handleDeleteTodo_removes asciiTrim "n1" 10
              (mkTodos [Todo.mk "a" "Buy milk" false 1 5] "Call Bob")) as (_ & _ & H).
  apply H. intros t Ht. apply list_elem_of_In in Ht. destruct Ht as [<-|[]].
  simpl. discriminate.
Defined.

(** ** Favorites *)

Lemma handleToggleFavorite_notes i now st note :
  List.find (fun n => bool_decide (Note.id n = i)) (notes st) = Some note ->
  notes (handleToggleFavorite i now st) =
    map (fun n => if bool_decide (Note.id n = i)
                  then Note.mk (Note.id n) (Note.title n) (Note.content n) (Note.excerpt n)
                               now (Note.createdAt n) (negb (Note.isFavorite note))
                  else n) (notes st).
Proof. intros Hf. unfold handleToggleFavorite. by rewrite Hf. Qed.

(** X11. Toggling the favorite flag of a note sets the flag of the notes
    with that id to the opposite of the flag of the first of them and
    stamps them with the time of the toggle; it keeps their other fields,
    the other notes, the selection, the history and the typing session,
    so it cannot be undone. With no note of that id nothing changes.
    Toggling twice gives the flag back, and a favorite that is toggled is
    no longer among the notes shown in the favorites view. *)
Theorem handleToggleFavorite_flips i now st :
  (forall note,
     List.find (fun n => bool_decide (Note.id n = i)) (notes st) = Some note ->
     notes (handleToggleFavorite i now st) =
       map (fun n => if bool_decide (Note.id n = i)
                     then Note.mk (Note.id n) (Note.title n) (Note.content n)
                                  (Note.excerpt n) now (Note.createdAt n)
                                  (negb (Note.isFavorite note))
                     else n) (notes st) /\
     (forall now2,
        Note.isFavorite <$>
          List.find (fun n => bool_decide (Note.id n = i))
            (notes (handleToggleFavorite i now2 (handleToggleFavorite i now st)))
        = Some (Note.isFavorite note)) /\
     (Note.isFavorite note = true ->
      forall trim toLowerCase q cfg n,
        n ∈ filteredNotes trim toLowerCase (notes (handleToggleFavorite i now st)) q
              ViewFavorites cfg ->
        Note.id n <> i)) /\
  (List.find (fun n => bool_decide (Note.id n = i)) (notes st) = None ->
   handleToggleFavorite i now st = st) /\
  history (handleToggleFavorite i now st) = history st /\
  selectedNoteId (handleToggleFavorite i now st) = selectedNoteId st /\
  typingTimeoutRef (handleToggleFavorite i now st) = typingTimeoutRef st /\
  timers (handleToggleFavorite i now st) = timers st.
Proof.
  split_and!.
  - intros note Hf. pose proof (handleToggleFavorite_notes i now st note Hf) as Hn.
    split_and!; [done| |].
    + intros now2.
      set (g := fun m => Note.mk (Note.id m) (Note.title m) (Note.content m)
                                 (Note.excerpt m) now (Note.createdAt m)
                                 (negb (Note.isFavorite note))).
      assert (List.find (fun n => bool_decide (Note.id n = i))
                (notes (handleToggleFavorite i now st)) = Some (g note)) as Hf1.
      { rewrite Hn. by apply (find_map_update i g). }
      set (st1 := handleToggleFavorite i now st) in *.
      rewrite (handleToggleFavorite_notes i now2 st1 (g note) Hf1).
      set (g2 := fun m => Note.mk (Note.id m) (Note.title m) (Note.content m)
                                  (Note.excerpt m) now2 (Note.createdAt m)
                                  (negb (Note.isFavorite (g note)))).
      rewrite (find_map_update i g2 _ (g note)) by done.
      simpl. by rewrite negb_involutive.
    + intros Hfav trim toLowerCase q cfg n Hin.
      apply filteredNotes_elem in Hin as (Hin & Hv).
      unfold noteShown in Hv. apply andb_true_iff in Hv as [Hv _]. rewrite Hn in Hin.
      apply list_elem_of_fmap in Hin as (m & -> & _).
      case_bool_decide as Hid; [|done].
      simpl in Hv. rewrite Hfav in Hv. done.
  - intros Hf. unfold handleToggleFavorite. by rewrite Hf.
  - unfold handleToggleFavorite. by destruct (List.find _ _).
  - unfold handleToggleFavorite. by destruct (List.find _ _).
  - unfold handleToggleFavorite. by destruct (List.find _ _).
  - unfold handleToggleFavorite. by destruct (List.find _ _).
Qed.

Lemma handleToggleFavorite_flips_witness :
  Note.isFavorite <$>
    List.find (fun n => bool_decide (Note.id n = "doc2"))
      (notes (handleToggleFavorite "doc2" 30 (handleToggleFavorite "doc2" 20 scenario_two)))
  = Some false /\
  handleToggleFavorite "nope" 20 scenario_two = scenario_two.
Proof.
  destruct (handleToggleFavorite_flips "doc2" 20 scenario_two) as (H & _).
  destruct (H (Note.mk "doc2" "U" "D" "D" 0 0 false) eq_refl) as (_ & Htwice & _).
  destruct (handleToggleFavorite_flips "nope" 20 scenario_two) as (_ & Hnone & _).
  split; [exact (Htwice 30%Z) | exact (Hnone eq_refl)].
Defined.

(** ** Export *)

Lemma replaceForbidden_clean (s : string) :
  Forall (fun c => isForbiddenFileChar c = false)
         (String.list_ascii_of_string (replaceForbidden s)).
Proof.
  induction s as [|c s IH]; simpl; constructor; [|done].
  destruct (isForbiddenFileChar c) eqn:E; [reflexivity|done].
Qed.

Lemma replaceForbidden_id (s : string) :
  Forall (fun c => isForbiddenFileChar c = false) (String.list_ascii_of_string s) ->
  replaceForbidden s = s.
Proof.
  induction s as [|c s IH]; simpl; [done|].
  intros [Hc Hs]%Forall_cons. by rewrite Hc, IH.
Qed.

Lemma list_ascii_of_string_append (s1 s2 : string) :
  String.list_ascii_of_string (String.append s1 s2)
  = String.list_ascii_of_string s1 ++ String.list_ascii_of_string s2.
Proof. induction s1 as [|c s1 IH]; simpl; [done|]. by rewrite IH. Qed.

(** X12. The replacement of the characters that a file name must not hold
    leaves none of them, keeps the length and every other character, and
    changes nothing when applied again or to a name without them. The
    name of the file of a note holds none of them, so none that would
    open a folder in the archive, and it ends in [.txt]. *)
Theorem exportFileName_clean :
  (forall s,
     Forall (fun c => isForbiddenFileChar c = false)
            (String.list_ascii_of_string (replaceForbidden s)) /\
     String.length (replaceForbidden s) = String.length s /\
     replaceForbidden (replaceForbidden s) = replaceForbidden s /\
     (forall i c, String.get i s = Some c -> isForbiddenFileChar c = false ->
                  String.get i (replaceForbidden s) = Some c)) /\
  (forall s,
     Forall (fun c => isForbiddenFileChar c = false) (String.list_ascii_of_string s) ->
     replaceForbidden s = s) /\
  (forall n,
     Forall (fun c => isForbiddenFileChar c = false)
            (String.list_ascii_of_string (exportFileName n)) /\
     exists stem, exportFileName n = String.append stem ".txt").
Proof.
  split_and!.
  - intros s. split_and!.
    + apply replaceForbidden_clean.
    + induction s as [|c s IH]; simpl; [done|]. by rewrite IH.
    + apply replaceForbidden_id, replaceForbidden_clean.
    + induction s as [|c' s IH]; intros i c; simpl; [done|].
      destruct i as [|i]; simpl.
      * intros [= ->] ->. done.
      * apply IH.
  - apply replaceForbidden_id.
  - intros n. split; [|by eexists]. unfold exportFileName.
    rewrite list_ascii_of_string_append. apply Forall_app. split.
    + apply replaceForbidden_clean.
    + repeat constructor.
Qed.

Lemma exportFileName_clean_witness :
  replaceForbidden "notes.v2" = "notes.v2" /\
  String.get 0 (replaceForbidden "a/b") = Some (Ascii.ascii_of_nat 97).
Proof.
  destruct exportFileName_clean as (Hrep & Hid & _).
  split.
  - apply Hid. vm_compute. repeat constructor.
  - destruct (Hrep "a/b") as (_ & _ & _ & Hget). by apply Hget.
Defined.

Lemma zipNotes_snoc (l : list Note.t) n :
  zipNotes (l ++ [n]) = <[exportFileName n := Note.content n]> (zipNotes l).
Proof. unfold zipNotes. by rewrite foldl_app. Qed.

Lemma zipNotes_lookup (l : list Note.t) (f : string) :
  zipNotes l !! f
  = Note.content <$> last (List.filter (fun n => bool_decide (exportFileName n = f)) l).
Proof.
  induction l as [|n l IH] using rev_ind; [done|].
  rewrite zipNotes_snoc, List.filter_app. simpl.
  case_bool_decide as Hf.
  - rewrite Hf, lookup_insert_eq. by rewrite last_snoc.
  - rewrite lookup_insert_ne by done. by rewrite app_nil_r.
Qed.

Lemma zipNotes_size (l : list Note.t) : size (zipNotes l) <= length l.
Proof.
  induction l as [|n l IH] using rev_ind; [done|].
  rewrite zipNotes_snoc, length_app. simpl.
  pose proof (map_size_insert (exportFileName n) (Note.content n) (zipNotes l)) as Hs.
  destruct (zipNotes l !! exportFileName n); simpl in Hs; lia.
Qed.

(** X13. The archive of all notes has one file per file name: under the
    name of a note it holds the content of the last note that has this
    name, so of several notes whose names coincide (the same title, or
    titles that differ in replaced characters only) only the last is
    exported. It never has more files than there are notes, and it has
    as many when the names differ from one another; with no note there
    is no archive. *)
Theorem zipNotes_files (l : list Note.t) :
  (forall f,
     zipNotes l !! f
     = Note.content <$> last (List.filter (fun n => bool_decide (exportFileName n = f)) l)) /\
  (forall n, n ∈ l -> is_Some (zipNotes l !! exportFileName n)) /\
  (forall n l', exportFileName n ∉ exportFileName <$> l' ->
                zipNotes (l ++ n :: l') !! exportFileName n = Some (Note.content n)) /\
  size (zipNotes l) <= length l /\
  (NoDup (exportFileName <$> l) -> size (zipNotes l) = length l) /\
  (exportAllTxtFiles l = None <-> l = []).
Proof.
  split_and!.
  - apply zipNotes_lookup.
  - intros n Hn. rewrite zipNotes_lookup.
    assert (n ∈ List.filter (fun m => bool_decide (exportFileName m = exportFileName n)) l)
      as Hin.
    { apply list_elem_of_In, List.filter_In. split; [by apply list_elem_of_In|].
      by apply bool_decide_eq_true. }
    destruct (List.filter _ l) as [|x r] using rev_ind;
      [by apply not_elem_of_nil in Hin|].
    rewrite last_snoc. by eexists.
  - intros n l' Hfresh. rewrite zipNotes_lookup, List.filter_app. simpl.
    rewrite bool_decide_eq_true_2 by done.
    assert (List.filter (fun m => bool_decide (exportFileName m = exportFileName n)) l' = [])
      as ->.
    { induction l' as [|m l' IH]; simpl; [done|].
      rewrite fmap_cons, not_elem_of_cons in Hfresh. destruct Hfresh as [Hm Hl'].
      rewrite bool_decide_eq_false_2 by done. by apply IH. }
    by rewrite last_snoc.
  - apply zipNotes_size.
  - induction l as [|n l IH] using rev_ind; [done|].
    rewrite fmap_app, NoDup_app. intros (Hl & Hn & _).
    rewrite zipNotes_snoc, length_app. simpl.
    rewrite map_size_insert_None; [rewrite IH by done; lia|].
    rewrite zipNotes_lookup.
    assert (List.filter (fun m => bool_decide (exportFileName m = exportFileName n)) l = [])
      as ->; [|done].
    clear IH Hl. induction l as [|m l IH]; simpl; [done|].
    rewrite bool_decide_eq_false_2.
    + apply IH. intros x Hx. apply Hn. rewrite fmap_cons. by right.
    + intros Hm. apply (Hn (exportFileName m)); [rewrite fmap_cons; by left|].
      rewrite Hm. simpl. by left.
  - unfold exportAllTxtFiles. case_bool_decide as Hl.
    + apply length_zero_iff_nil in Hl. by split.
    + split; [done|]. intros ->. done.
Qed.

Lemma zipNotes_files_witness :
  zipNotes [Note.mk "n1" "a/b" "first" "" 0 0 false; Note.mk "n2" "a:b" "second" "" 0 0 false]
    !! "a_b.txt" = Some "second" /\
  size (zipNotes [Note.mk "n1" "a" "first" "" 0 0 false;
                  Note.mk "n2" "b" "second" "" 0 0 false]) = 2.
Proof.
  split.
  - destruct (zipNotes_files [Note.mk "n1" "a/b" "first" "" 0 0 false]) as (_ & _ & H & _).
    apply (H (Note.mk "n2" "a:b" "second" "" 0 0 false) []).
    apply not_elem_of_nil.
  - destruct (zipNotes_files [Note.mk "n1" "a" "first" "" 0 0 false;
                              Note.mk "n2" "b" "second" "" 0 0 false])
      as (_ & _ & _ & _ & H & _).
    apply H. compute_done.
Defined.

(** ** Loading and saving *)

Lemma patchNote_stringify now (n : Note.t) :
  Note.createdAt n <> 0%Z ->
  patchNote now (StoredNote.mk (Note.id n) (Note.title n) (Note.content n) (Note.excerpt n)
                   (Note.updatedAt n) (Some (Note.createdAt n)) (Note.isFavorite n)) = n.
Proof.
  intros Hc. unfold patchNote, backfillCreatedAt. simpl.
  rewrite bool_decide_eq_false_2 by done. by destruct n.
Qed.

Lemma loadNotes_saved newId now (l : list Note.t) saved st :
  l <> [] -> (forall n, n ∈ l -> Note.createdAt n <> 0%Z) ->
  notes (loadNotes newId now (saveNotesEffect l saved) st) = l.
Proof.
  intros Hl Hc. unfold saveNotesEffect.
  rewrite bool_decide_eq_true_2 by (destruct l; simpl; [congruence|lia]).
  simpl. rewrite map_map. induction l as [|n l IH]; [done|]. simpl.
  rewrite patchNote_stringify by (apply Hc; left).
  destruct l as [|m l]; [done|]. f_equal. apply IH; [done|].
  intros x Hx. apply Hc. by right.
Qed.

(** X14. Notes that are saved and loaded again are the same notes, as long
    as there is at least one and none has a [createdAt] of 0; loading
    selects no note and leaves the history, which is not saved, as it is. *)
Theorem notes_survive_reload newId now (l : list Note.t) saved st :
  l <> [] ->
  (forall n, n ∈ l -> Note.createdAt n <> 0%Z) ->
  notes (loadNotes newId now (saveNotesEffect l saved) st) = l /\
  selectedNoteId (loadNotes newId now (saveNotesEffect l saved) st) = selectedNoteId st /\
  history (loadNotes newId now (saveNotesEffect l saved) st) = history st.
Proof.
  intros Hl Hc. split; [by apply loadNotes_saved|].
  unfold saveNotesEffect.
  rewrite bool_decide_eq_true_2 by (destruct l; simpl; [congruence|lia]). done.
Qed.

Lemma notes_survive_reload_witness :
  notes (loadNotes "w" 99 (saveNotesEffect [Note.mk "doc1" "T" "C" "C" 10 5 false] None)
           initialApp)
  = [Note.mk "doc1" "T" "C" "C" 10 5 false].
Proof.
  apply (notes_survive_reload "w" 99 [Note.mk "doc1" "T" "C" "C" 10 5 false] None initialApp).
  - discriminate.
  - intros n Hn. apply list_elem_of_In in Hn. destruct Hn as [<-|[]]. simpl. lia.
Defined.

(** X15. An empty list of notes is never saved: the save effect leaves the
    stored item as it is. So when the only note is deleted, the stored
    item still holds it, and loading brings the deleted note back. *)
Theorem last_note_deletion_not_saved saved :
  saveNotesEffect [] saved = saved /\
  (forall st n newId now,
     notes st = [n] -> Note.createdAt n <> 0%Z ->
     notes (handleDeleteNote true (Note.id n) st) = [] /\
     saveNotesEffect (notes (handleDeleteNote true (Note.id n) st))
                     (saveNotesEffect (notes st) saved)
       = saveNotesEffect (notes st) saved /\
     notes (loadNotes newId now
              (saveNotesEffect (notes (handleDeleteNote true (Note.id n) st))
                               (saveNotesEffect (notes st) saved))
              initialApp) = [n]).
Proof.
  split; [done|]. intros st n newId now Hn Hc.
  assert (notes (handleDeleteNote true (Note.id n) st) = []) as Hdel.
  { unfold handleDeleteNote. simpl.
    assert (filter (fun m => Note.id m <> Note.id n) (notes st) = []) as Hf.
    { rewrite Hn. by rewrite (filter_cons_False (fun m => Note.id m <> Note.id n))
        by (simpl; tauto). }
    case_decide; [|done].
    unfold setSelectedNoteId. simpl. case_decide; [done|].
    by destruct (resetTypingTimer_spec
                   (mkApp (filter (fun m => Note.id m <> Note.id n) (notes st)) None
                          (history st) (typingTimeoutRef st) (timers st) (nextTimer st)))
      as (_ & _ & -> & _). }
  rewrite Hdel. split_and!; [done|done|].
  change (saveNotesEffect [] ?s) with s. rewrite Hn.
  apply loadNotes_saved; [done|].
  intros x Hx. apply list_elem_of_In in Hx. by destruct Hx as [<-|[]].
Qed.

Lemma last_note_deletion_not_saved_witness :
  let n := Note.mk "doc1" "T" "C" "C" 10 5 false in
  let st := mkApp [n] (Some "doc1") ∅ None [] 1 in
  notes (loadNotes "w" 99
           (saveNotesEffect (notes (handleDeleteNote true "doc1" st))
                            (saveNotesEffect (notes st) None))
           initialApp) = [n].
Proof.
  intros n st.
  destruct (last_note_deletion_not_saved None) as [_ H].
  destruct (H st n "w" 99%Z eq_refl ltac:(simpl; lia)) as (_ & _ & Hload).
  exact Hload.
Defined.

(** X16. Loading with no stored item, or with the empty text, gives the
    welcome note alone, selected, created and updated at the time of
    loading; a text that cannot be read leaves the state as it is, with
    no welcome note; a text that is read gives one note per stored note,
    in their order and with their fields, where [createdAt] is the stored
    one when there is one other than 0, else [updatedAt] when this is not
    0, else the time of loading. *)
Theorem loadNotes_cases newId now st :
  (forall saved,
     saved = None \/ saved = Some SavedEmpty ->
     notes (loadNotes newId now saved st)
       = [Note.mk newId WELCOME_TITLE WELCOME_CONTENT WELCOME_EXCERPT now now false] /\
     selectedNote (loadNotes newId now saved st)
       = Some (Note.mk newId WELCOME_TITLE WELCOME_CONTENT WELCOME_EXCERPT now now false) /\
     history (loadNotes newId now saved st) = history st) /\
  loadNotes newId now (Some SavedUnreadable) st = st /\
  (forall parsed,
     selectedNoteId (loadNotes newId now (Some (SavedText parsed)) st) = selectedNoteId st /\
     history (loadNotes newId now (Some (SavedText parsed)) st) = history st /\
     Forall2 (fun s n =>
                Note.id n = StoredNote.id s /\
                Note.title n = StoredNote.title s /\
                Note.content n = StoredNote.content s /\
                Note.excerpt n = StoredNote.excerpt s /\
                Note.updatedAt n = StoredNote.updatedAt s /\
                Note.isFavorite n = StoredNote.isFavorite s /\
                (forall c, StoredNote.createdAt s = Some c -> c <> 0%Z ->
                           Note.createdAt n = c) /\
                (StoredNote.createdAt s = None \/ StoredNote.createdAt s = Some 0%Z ->
                 StoredNote.updatedAt s <> 0%Z ->
                 Note.createdAt n = StoredNote.updatedAt s) /\
                (StoredNote.createdAt s = None \/ StoredNote.createdAt s = Some 0%Z ->
                 StoredNote.updatedAt s = 0%Z ->
                 Note.createdAt n = now))
             parsed (notes (loadNotes newId now (Some (SavedText parsed)) st))).
Proof.
  split_and!.
  - intros saved Hsaved.
    assert (loadNotes newId now saved st =
            setSelectedNoteId (Some newId)
              (setNotes (fun _ => [Note.mk newId WELCOME_TITLE WELCOME_CONTENT
                                     WELCOME_EXCERPT now now false]) st)) as ->
      by (by destruct Hsaved as [-> | ->]).
    set (w := Note.mk newId WELCOME_TITLE WELCOME_CONTENT WELCOME_EXCERPT now now false).
    assert (notes (setSelectedNoteId (Some newId) (setNotes (fun _ => [w]) st)) = [w]
            /\ selectedNoteId (setSelectedNoteId (Some newId) (setNotes (fun _ => [w]) st))
               = Some newId) as [Hn Hsel].
    { unfold setSelectedNoteId. simpl. case_decide as Hd; [done|].
      destruct (resetTypingTimer_spec
                  (mkApp [w] (Some newId) (history st) (typingTimeoutRef st)
                         (timers st) (nextTimer st))) as (_ & _ & -> & -> & _).
      done. }
    split_and!; [done| |by rewrite history_setSelectedNoteId].
    unfold selectedNote. rewrite Hsel, Hn. simpl.
    by rewrite bool_decide_eq_true_2.
  - done.
  - intros parsed. simpl. split_and!; [done|done|].
    induction parsed as [|s parsed IH]; simpl; constructor; [|done].
    unfold patchNote, backfillCreatedAt. simpl. split_and!; try done.
    + intros c Hc Hc0. rewrite Hc. by rewrite bool_decide_eq_false_2.
    + intros [Hc|Hc] Hu; rewrite Hc; repeat case_bool_decide; congruence.
    + intros [Hc|Hc] Hu; rewrite Hc; repeat case_bool_decide; congruence.
Qed.

Lemma loadNotes_cases_witness :
  Note.id <$> selectedNote (loadNotes "w" 99 None initialApp) = Some "w" /\
  Note.createdAt <$>
    notes (loadNotes "w" 99
             (Some (SavedText [StoredNote.mk "a" "t" "c" "e" 7 None false;
                               StoredNote.mk "b" "t" "c" "e" 0 (Some 0%Z) false;
                               StoredNote.mk "c" "t" "c" "e" 8 (Some 5%Z) false]))
             initialApp)
  = [7%Z; 99%Z; 5%Z].
Proof.
  destruct (loadNotes_cases "w" 99 initialApp) as (Hnone & _ & Htext).
  split.
  - destruct (Hnone None (or_introl eq_refl)) as (_ & -> & _). reflexivity.
  - destruct (Htext [StoredNote.mk "a" "t" "c" "e" 7 None false;
                     StoredNote.mk "b" "t" "c" "e" 0 (Some 0%Z) false;
                     StoredNote.mk "c" "t" "c" "e" 8 (Some 5%Z) false]) as (_ & _ & H).
    remember (notes (loadNotes "w" 99
                       (Some (SavedText [StoredNote.mk "a" "t" "c" "e" 7 None false;
                                         StoredNote.mk "b" "t" "c" "e" 0 (Some 0%Z) false;
                                         StoredNote.mk "c" "t" "c" "e" 8 (Some 5%Z) false]))
                       initialApp)) as l eqn:El.
    clear El.
    inversion H as [|s1 n1 p1 l1 H1 Ht1]; subst.
    inversion Ht1 as [|s2 n2 p2 l2 H2 Ht2]; subst.
    inversion Ht2 as [|s3 n3 p3 l3 H3 Ht3]; subst.
    inversion Ht3; subst.
    destruct H1 as (_ & _ & _ & _ & _ & _ & _ & H1 & _).
    destruct H2 as (_ & _ & _ & _ & _ & _ & _ & _ & H2).
    destruct H3 as (_ & _ & _ & _ & _ & _ & H3 & _).
    simpl in *. rewrite (H1 (or_introl eq_refl)) by lia.
    rewrite (H2 (or_intror eq_refl) eq_refl).
    rewrite (H3 5%Z eq_refl) by lia. reflexivity.
Defined.

(** ** Undo and redo as moves of a cursor *)

Lemma getHistory_lookup i st h : history st !! i = Some h -> getHistory i st = h.
Proof. unfold getHistory. by intros ->. Qed.

Lemma cursorOf_handleUndo now st : cursorOf (handleUndo now st) = undoCursor <$> cursorOf st.
Proof.
  destruct (selectedNote st) as [sn|] eqn:Hs.
  2: { rewrite (handleUndo_no_note _ _ Hs). unfold cursorOf. by rewrite Hs. }
  destruct (decide (past (getHistory (Note.id sn) st) = [])) as [Hp|Hp].
  - rewrite (handleUndo_empty now st (Note.id sn)) by (by try apply selectedNote_id).
    unfold cursorOf. rewrite Hs. simpl. unfold undoCursor. simpl. by rewrite Hp.
  - destruct (history st !! Note.id sn) as [h|] eqn:Hh.
    2: { unfold getHistory in Hp. by rewrite Hh in Hp. }
    rewrite (getHistory_lookup _ _ _ Hh) in Hp.
    destruct (nonempty_snoc _ Hp) as (rest & restored & Hpast).
    rewrite (handleUndo_acts now st sn h rest restored Hs Hh Hpast).
    unfold cursorOf at 1. rewrite selectedNote_updateNoteState by done.
    unfold cursorOf. rewrite Hs. simpl. unfold getHistory. simpl.
    rewrite lookup_insert_eq, Hh. simpl. unfold undoCursor. simpl.
    rewrite Hpast, last_snoc, removelast_last.
    by rewrite snapshotOf_applyUpdates.
Qed.

Lemma cursorOf_handleRedo now st : cursorOf (handleRedo now st) = redoCursor <$> cursorOf st.
Proof.
  destruct (selectedNote st) as [sn|] eqn:Hs.
  2: { rewrite (handleRedo_no_note _ _ Hs). unfold cursorOf. by rewrite Hs. }
  destruct (decide (future (getHistory (Note.id sn) st) = [])) as [Hf|Hf].
  - rewrite (handleRedo_empty now st (Note.id sn)) by (by try apply selectedNote_id).
    unfold cursorOf. rewrite Hs. simpl. unfold redoCursor. simpl. by rewrite Hf.
  - destruct (history st !! Note.id sn) as [h|] eqn:Hh.
    2: { unfold getHistory in Hf. by rewrite Hh in Hf. }
    rewrite (getHistory_lookup _ _ _ Hh) in Hf.
    destruct (future h) as [|restored rest] eqn:Hfut; [done|].
    rewrite (handleRedo_acts now st sn h rest restored Hs Hh Hfut).
    unfold cursorOf at 1. rewrite selectedNote_updateNoteState by done.
    unfold cursorOf. rewrite Hs. simpl. unfold getHistory. simpl.
    rewrite lookup_insert_eq, Hh. simpl. unfold redoCursor. simpl.
    rewrite Hfut. by rewrite snapshotOf_applyUpdates.
Qed.

Lemma undoCursor_nil c : c_past c = [] -> undoCursor c = c.
Proof. intros Hp. unfold undoCursor. by rewrite Hp. Qed.

Lemma undoCursor_snoc c rest p :
  c_past c = rest ++ [p] -> undoCursor c = mkCursor rest p (c_now c :: c_future c).
Proof.
  intros Hp. unfold undoCursor. by rewrite Hp, last_snoc, removelast_last.
Qed.

Lemma cursorLine_undoCursor c : cursorLine (undoCursor c) = cursorLine c.
Proof.
  destruct (decide (c_past c = [])) as [Hp|Hp]; [by rewrite undoCursor_nil|].
  destruct (nonempty_snoc _ Hp) as (rest & p & Hpast).
  rewrite (undoCursor_snoc _ _ _ Hpast). unfold cursorLine. simpl.
  rewrite Hpast. by rewrite <- (app_assoc rest [p]).
Qed.

Lemma cursorLine_redoCursor c : cursorLine (redoCursor c) = cursorLine c.
Proof.
  unfold redoCursor. destruct (c_future c) as [|next f] eqn:E; [done|].
  unfold cursorLine. simpl. rewrite E. by rewrite <- (app_assoc (c_past c) [c_now c]).
Qed.

Lemma redoCursor_undoCursor c : c_past c <> [] -> redoCursor (undoCursor c) = c.
Proof.
  intros Hp. destruct (nonempty_snoc _ Hp) as (rest & p & Hpast).
  rewrite (undoCursor_snoc _ _ _ Hpast). unfold redoCursor. simpl.
  destruct c as [cp cn cf]. simpl in *. by rewrite Hpast.
Qed.

Lemma undoCursor_redoCursor c : c_future c <> [] -> undoCursor (redoCursor c) = c.
Proof.
  intros Hf. unfold redoCursor. destruct (c_future c) as [|next f] eqn:E; [done|].
  rewrite (undoCursor_snoc _ (c_past c) (c_now c)) by done. simpl.
  destruct c as [cp cn cf]. simpl in *. by rewrite E.
Qed.

Lemma undoCursor_past_length c :
  length (c_past (undoCursor c)) = length (c_past c) - 1.
Proof.
  destruct (decide (c_past c = [])) as [Hp|Hp].
  - rewrite undoCursor_nil by done. rewrite Hp. done.
  - destruct (nonempty_snoc _ Hp) as (rest & p & Hpast).
    rewrite (undoCursor_snoc _ _ _ Hpast), Hpast, length_app. simpl. lia.
Qed.

Lemma redoCursor_future_length c :
  length (c_future (redoCursor c)) = length (c_future c) - 1.
Proof.
  unfold redoCursor. destruct (c_future c) as [|next f] eqn:E; simpl.
  - by rewrite E.
  - lia.
Qed.

Lemma iter_undoCursor_past_length n c :
  length (c_past (Nat.iter n undoCursor c)) = length (c_past c) - n.
Proof.
  induction n as [|n IH]; simpl; [lia|]. rewrite undoCursor_past_length, IH. lia.
Qed.

Lemma iter_redoCursor_future_length n c :
  length (c_future (Nat.iter n redoCursor c)) = length (c_future c) - n.
Proof.
  induction n as [|n IH]; simpl; [lia|]. rewrite redoCursor_future_length, IH. lia.
Qed.

Lemma iter_redo_undo_cursor n c :
  n <= length (c_past c) -> Nat.iter n redoCursor (Nat.iter n undoCursor c) = c.
Proof.
  induction n as [|n IH]; intros Hn; [done|].
  rewrite Nat.iter_succ_r. simpl. rewrite redoCursor_undoCursor; [apply IH; lia|].
  intros E. apply (f_equal length) in E. rewrite iter_undoCursor_past_length in E.
  simpl in E. lia.
Qed.

Lemma iter_undo_redo_cursor n c :
  n <= length (c_future c) -> Nat.iter n undoCursor (Nat.iter n redoCursor c) = c.
Proof.
  induction n as [|n IH]; intros Hn; [done|].
  rewrite Nat.iter_succ_r. simpl. rewrite undoCursor_redoCursor; [apply IH; lia|].
  intros E. apply (f_equal length) in E. rewrite iter_redoCursor_future_length in E.
  simpl in E. lia.
Qed.

Lemma cursorOf_iter_handleUndo n now st :
  cursorOf (Nat.iter n (handleUndo now) st) = Nat.iter n undoCursor <$> cursorOf st.
Proof.
  induction n as [|n IH]; simpl; [by destruct (cursorOf st)|].
  rewrite cursorOf_handleUndo, IH. by destruct (cursorOf st).
Qed.

Lemma cursorOf_iter_handleRedo n now st :
  cursorOf (Nat.iter n (handleRedo now) st) = Nat.iter n redoCursor <$> cursorOf st.
Proof.
  induction n as [|n IH]; simpl; [by destruct (cursorOf st)|].
  rewrite cursorOf_handleRedo, IH. by destruct (cursorOf st).
Qed.

(** X17. On the selected note, undo and redo are moves of a cursor: undo
    steps from the note to the last snapshot of [past] and redo to the
    first of [future], the note taking the place it left. The snapshots
    of [past], the note and the snapshots of [future], read in this
    order, are the same before and after: undo and redo neither lose nor
    invent a snapshot. *)
Theorem undo_redo_move_cursor now st :
  cursorOf (handleUndo now st) = undoCursor <$> cursorOf st /\
  cursorOf (handleRedo now st) = redoCursor <$> cursorOf st /\
  cursorLine <$> cursorOf (handleUndo now st) = cursorLine <$> cursorOf st /\
  cursorLine <$> cursorOf (handleRedo now st) = cursorLine <$> cursorOf st.
Proof.
  rewrite cursorOf_handleUndo, cursorOf_handleRedo. split_and!; try done.
  - destruct (cursorOf st); simpl; [|done]. by rewrite cursorLine_undoCursor.
  - destruct (cursorOf st); simpl; [|done]. by rewrite cursorLine_redoCursor.
Qed.

(** X18. Undoing n times and then redoing n times gives the selected note
    its title and content and the stacks of its history back, when [past]
    holds at least n snapshots; likewise redoing n times and then undoing
    n times when [future] holds at least n. Undoing more often than
    [past] has snapshots stops at the oldest one: [past] is then empty. *)
Theorem undo_redo_n_times n now1 now2 st c :
  cursorOf st = Some c ->
  (n <= length (c_past c) ->
   cursorOf (Nat.iter n (handleRedo now2) (Nat.iter n (handleUndo now1) st)) = Some c) /\
  (n <= length (c_future c) ->
   cursorOf (Nat.iter n (handleUndo now2) (Nat.iter n (handleRedo now1) st)) = Some c) /\
  (length (c_past c) <= n ->
   c_past <$> cursorOf (Nat.iter n (handleUndo now1) st) = Some []).
Proof.
  intros Hc. split_and!.
  - intros Hn. rewrite cursorOf_iter_handleRedo, cursorOf_iter_handleUndo, Hc. simpl.
    by rewrite iter_redo_undo_cursor.
  - intros Hn. rewrite cursorOf_iter_handleUndo, cursorOf_iter_handleRedo, Hc. simpl.
    by rewrite iter_undo_redo_cursor.
  - intros Hn. rewrite cursorOf_iter_handleUndo, Hc. simpl. f_equal.
    apply length_zero_iff_nil. rewrite iter_undoCursor_past_length. lia.
Qed.

Lemma undo_redo_n_times_witness :
  let st := mkApp [Note.mk "doc1" "T" "C3" "C3" 10 5 false] (Some "doc1")
                  {[ "doc1" := mkHistory [mkSnapshot "T" "C1"; mkSnapshot "T" "C2"] [] ]}
                  None [] 1 in
  let c := mkCursor [mkSnapshot "T" "C1"; mkSnapshot "T" "C2"] (mkSnapshot "T" "C3") [] in
  cursorOf (Nat.iter 2 (handleRedo 30) (Nat.iter 2 (handleUndo 20) st)) = Some c /\
  c_past <$> cursorOf (Nat.iter 5 (handleUndo 20) st) = Some [].
Proof.
  intros st c.
  destruct (undo_redo_n_times 2 20 30 st c eq_refl) as (H & _ & _).
  destruct (undo_redo_n_times 5 20 30 st c eq_refl) as (_ & _ & Hall).
  split; [apply H | apply Hall]; simpl; lia.
Defined.

(** ** Typing sessions and undo *)

Lemma run_app evs1 evs2 st : run (evs1 ++ evs2) st = run evs2 (run evs1 st).
Proof. unfold run. apply foldl_app. Qed.

Lemma run_edits_selected edits : forall st sn t,
  inSession st t ->
  selectedNote st = Some sn ->
  gapsUnder t (map (fun e => e.1.1) edits) ->
  exists sn', selectedNote (run (editEvents edits) st) = Some sn' /\
              Note.id sn' = Note.id sn.
Proof.
  induction edits as [|[[t' k] value] edits IH]; intros st sn t Hin Hs Hgaps.
  - by exists sn.
  - simpl in Hgaps. destruct Hgaps as [Hgap Hgaps].
    destruct (step_edit_continue st sn t t' k value Hin Hgap Hs) as (_ & Hin' & Hs').
    destruct (IH _ _ _ Hin' Hs' Hgaps) as (sn' & Hsel & Hid).
    exists sn'. split; [exact Hsel|]. by rewrite Hid.
Qed.

(** X19. An undo after a typing session takes back the whole session:
    when a run of edits starts with the timer slot idle and every edit
    arrives less than the quiet interval after the one before it, an undo
    after it, at whatever time, gives the note the title and content it
    had before the first edit and leaves [past] as it was before. *)
Theorem undo_reverts_typing_session st sn t1 k1 value1 rest tu :
  timerInv st ->
  typingTimeoutRef (fireTimers t1 st) = None ->
  selectedNote st = Some sn ->
  gapsUnder t1 (map (fun e => e.1.1) rest) ->
  snapshotOf <$> selectedNote (run (editEvents ((t1, k1, value1) :: rest) ++ [(tu, Undo)]) st)
    = Some (snapshotOf sn) /\
  past (getHistory (Note.id sn)
          (run (editEvents ((t1, k1, value1) :: rest) ++ [(tu, Undo)]) st))
    = past (getHistory (Note.id sn) st) /\
  length (future (getHistory (Note.id sn)
                    (run (editEvents ((t1, k1, value1) :: rest) ++ [(tu, Undo)]) st))) = 1.
Proof.
  intros Hinv Hr Hs Hgaps.
  destruct (step_edit_start st sn t1 k1 value1 Hinv Hr Hs) as (Hh & Hin & Hs1).
  rewrite run_app.
  set (st2 := run (editEvents ((t1, k1, value1) :: rest)) st).
  assert (history st2 =
          <[Note.id sn := mkHistory (past (getHistory (Note.id sn) st) ++ [snapshotOf sn]) []]>
            (history st)) as Hh2.
  { unfold st2. simpl.
    change (foldl step ?s (editEvents rest)) with (run (editEvents rest) s).
    by rewrite (run_edits_continue rest _ _ _ Hin Hs1 Hgaps). }
  assert (exists sn2, selectedNote st2 = Some sn2 /\ Note.id sn2 = Note.id sn)
    as (sn2 & Hs2 & Hid2).
  { unfold st2. simpl.
    change (foldl step ?s (editEvents rest)) with (run (editEvents rest) s).
    destruct (run_edits_selected rest _ _ _ Hin Hs1 Hgaps) as (sn' & ? & Hid).
    exists sn'. split; [done|]. by rewrite Hid. }
  simpl. unfold step. simpl.
  set (st3 := fireTimers tu st2).
  assert (selectedNote st3 = Some sn2) as Hs3
    by (unfold st3; by rewrite selectedNote_fireTimers).
  assert (history st3 !! Note.id sn2
          = Some (mkHistory (past (getHistory (Note.id sn) st) ++ [snapshotOf sn]) []))
    as Hh3.
  { unfold st3. destruct (fireTimers_frame tu st2) as (_ & _ & ->).
    by rewrite Hh2, Hid2, lookup_insert_eq. }
  rewrite (handleUndo_acts tu st3 sn2 _ (past (getHistory (Note.id sn) st)) (snapshotOf sn)
             Hs3 Hh3 eq_refl).
  rewrite selectedNote_updateNoteState by done.
  split_and!.
  - reflexivity.
  - unfold getHistory at 1. simpl. by rewrite Hid2, lookup_insert_eq.
  - unfold getHistory at 1. simpl. by rewrite Hid2, lookup_insert_eq.
Qed.

Lemma undo_reverts_typing_session_witness :
  snapshotOf <$>
    selectedNote (run (editEvents [(10%Z, KContent, "C1"); (500%Z, KTitle, "T2");
                                   (900%Z, KContent, "C2")] ++ [(5000%Z, Undo)]) scenario0)
  = Some (mkSnapshot "T" "C").
Proof.
  assert (timerInv scenario0) as Hinv by reflexivity.
  destruct (undo_reverts_typing_session scenario0 doc1 10%Z KContent "C1"
              [(500%Z, KTitle, "T2"); (900%Z, KContent, "C2")] 5000%Z
              Hinv eq_refl eq_refl) as (H & _).
  - simpl. unfold QUIET_INTERVAL. lia.
  - exact H.
Defined.

(** X20. From a state with a null timer slot and no pending timeout, as
    the component is when it mounts, every run of events leaves at most
    one timeout pending, and the slot holds its handle; when the slot is
    null nothing is pending. *)
Theorem typing_timer_single evs st :
  typingTimeoutRef st = None ->
  timers st = [] ->
  (typingTimeoutRef (run evs st) = None /\ timers (run evs st) = []) \/
  (exists h d, typingTimeoutRef (run evs st) = Some h /\ timers (run evs st) = [(h, d)]).
Proof.
  intros Hr Ht.
  assert (timerInv (run evs st)) as Hinv
    by (apply timerInv_run; unfold timerInv; by rewrite Hr).
  unfold timerInv in Hinv. destruct (typingTimeoutRef (run evs st)) as [h|].
  - right. destruct Hinv as [d Hd]. by exists h, d.
  - by left.
Qed.

Lemma typing_timer_single_witness :
  exists h d,
    typingTimeoutRef (run [(10%Z, TextChange KContent "C1"); (20%Z, Undo);
                           (30%Z, TextChange KTitle "T1")] scenario0) = Some h /\
    timers (run [(10%Z, TextChange KContent "C1"); (20%Z, Undo);
                 (30%Z, TextChange KTitle "T1")] scenario0) = [(h, d)].
Proof.
  destruct (typing_timer_single [(10%Z, TextChange KContent "C1"); (20%Z, Undo);
                                 (30%Z, TextChange KTitle "T1")] scenario0 eq_refl eq_refl)
    as [[Hnone _]|H].
  - discriminate Hnone.
  - exact H.
Defined.

(** X21. The history of a note changes only while the note is selected or
    when it is deleted: an event leaves the record of every note that is
    neither the selected one nor the one it deletes as it is. *)
Theorem history_of_other_notes ev t st j :
  selectedNoteId st <> Some j ->
  (forall confirmed, ev <> DeleteNote confirmed j) ->
  history (step st (t, ev)) !! j = history st !! j.
Proof.
  intros Hsel Hdel. unfold step. simpl.
  destruct (fireTimers_frame t st) as (_ & Hsel' & Hh').
  rewrite <- Hh', <- Hsel' in *. clear Hsel' Hh'.
  set (st1 := fireTimers t st) in *.
  assert (forall sn, selectedNote st1 = Some sn -> Note.id sn <> j) as Hid.
  { intros sn Hs Hj. apply selectedNote_id in Hs. rewrite Hj in Hs. congruence. }
  assert (history (handleUndo t st1) !! j = history st1 !! j) as Hundo.
  { destruct (handleUndo_cases t st1) as [->|(sn & h & rest & restored & Hs & _ & _ & ->)];
      [done|].
    simpl. rewrite lookup_insert_ne; [done|by apply Hid]. }
  assert (history (handleRedo t st1) !! j = history st1 !! j) as Hredo.
  { destruct (handleRedo_cases t st1) as [->|(sn & h & rest & restored & Hs & _ & _ & ->)];
      [done|].
    simpl. rewrite lookup_insert_ne; [done|by apply Hid]. }
  destruct ev as [k value| | |v|confirmed i|newId|e]; simpl.
  - destruct (selectedNote st1) as [sn|] eqn:Hs.
    2: { unfold handleTextChange. by rewrite Hs. }
    destruct (typingTimeoutRef st1) as [h|] eqn:Hr.
    + by rewrite (handleTextChange_continue _ _ _ _ _ _ Hs Hr).
    + rewrite (handleTextChange_start _ _ _ _ _ Hs Hr). simpl.
      rewrite lookup_insert_ne; [done|by apply Hid].
  - done.
  - done.
  - by rewrite history_setSelectedNoteId.
  - unfold handleDeleteNote. destruct confirmed; [|done]. simpl.
    rewrite lookup_delete_ne by (intros ->; by apply (Hdel true)).
    case_decide; [|done]. by rewrite history_setSelectedNoteId.
  - unfold handleCreateNote. by rewrite history_setSelectedNoteId.
  - unfold handleKeyDown. destruct (negb _); [done|].
    destruct (_ && _); simpl; [by destruct (shiftKey e)|].
    by destruct (_ && _).
Qed.

Lemma history_of_other_notes_witness :
  history (step scenario_two (20%Z, Undo)) !! "doc2" = history scenario_two !! "doc2".
Proof.
  apply (history_of_other_notes Undo 20%Z scenario_two "doc2"); discriminate.
Defined.

(** ** Creating notes *)

Lemma setSelectedNoteId_frame v st :
  selectedNoteId (setSelectedNoteId v st) = v /\
  notes (setSelectedNoteId v st) = notes st.
Proof.
  unfold setSelectedNoteId. case_decide as Hd; [done|].
  by destruct (resetTypingTimer_spec
                 (mkApp (notes st) v (history st) (typingTimeoutRef st)
                        (timers st) (nextTimer st))) as (_ & _ & -> & -> & _).
Qed.

(** X22. A new note is put in front of the notes and is the selected note,
    even when a note of the same id exists; the history is kept. When the
    history has no record for its id, as after the deletion of a note of
    that id, nothing can be undone or redone on the new note. *)
Theorem handleCreateNote_selects newId now st :
  notes (handleCreateNote newId now st)
    = Note.mk newId NEW_NOTE_TITLE "" NEW_NOTE_EXCERPT now now false :: notes st /\
  selectedNote (handleCreateNote newId now st)
    = Some (Note.mk newId NEW_NOTE_TITLE "" NEW_NOTE_EXCERPT now now false) /\
  history (handleCreateNote newId now st) = history st /\
  (history st !! newId = None ->
   canUndo (handleCreateNote newId now st) = false /\
   canRedo (handleCreateNote newId now st) = false) /\
  (forall st0,
     st = handleDeleteNote true newId st0 ->
     canUndo (handleCreateNote newId now st) = false /\
     canRedo (handleCreateNote newId now st) = false).
Proof.
  set (new := Note.mk newId NEW_NOTE_TITLE "" NEW_NOTE_EXCERPT now now false).
  destruct (setSelectedNoteId_frame (Some newId) (setNotes (cons new) st)) as [Hsel Hn].
  assert (history (handleCreateNote newId now st) = history st) as Hh
    by (unfold handleCreateNote; by rewrite history_setSelectedNoteId).
  assert (history st !! newId = None ->
          canUndo (handleCreateNote newId now st) = false /\
          canRedo (handleCreateNote newId now st) = false) as Hnone.
  { intros Habs. unfold canUndo, canRedo, canUndoOf, canRedoOf. rewrite Hh.
    unfold handleCreateNote. fold new. rewrite Hsel, Habs.
    by destruct (truthyId (Some newId)). }
  split_and!; try done.
  - unfold selectedNote, handleCreateNote. fold new. rewrite Hsel, Hn. simpl.
    by rewrite bool_decide_eq_true_2.
  - intros st0 ->. apply Hnone.
    assert (history (handleDeleteNote true newId st0) = delete newId (history st0)) as ->.
    { unfold handleDeleteNote. simpl. case_decide; [|done].
      by rewrite history_setSelectedNoteId. }
    apply lookup_delete_eq.
Qed.

Lemma handleCreateNote_selects_witness :
  canUndo (handleCreateNote "doc1" 50 (handleDeleteNote true "doc1" scenario_mid)) = false /\
  canUndo (handleCreateNote "doc3" 50 scenario_mid) = false.
Proof.
  destruct (handleCreateNote_selects "doc1" 50 (handleDeleteNote true "doc1" scenario_mid))
    as (_ & _ & _ & _ & Hdel).
  destruct (handleCreateNote_selects "doc3" 50 scenario_mid) as (_ & _ & _ & Hnone & _).
  split.
  - by destruct (Hdel scenario_mid eq_refl).
  - by destruct (Hnone eq_refl).
Defined.

(** ** The AI action *)

Lemma handleAiAction_start_spec st sn :
  selectedNote st = Some sn ->
  typingTimeoutRef (handleAiAction_start st) = None /\
  notes (handleAiAction_start st) = notes st /\
  selectedNoteId (handleAiAction_start st) = selectedNoteId st /\
  history (handleAiAction_start st) =
    <[Note.id sn := mkHistory (past (getHistory (Note.id sn) st) ++ [snapshotOf sn]) []]>
      (history st) /\
  (timerInv st -> timers (handleAiAction_start st) = []).
Proof.
  intros Hs. unfold handleAiAction_start. rewrite Hs.
  destruct (resetTypingTimer_spec (saveToHistory sn st)) as (Hr & Hh & Hn & Hsel & _).
  split_and!; try done.
  intros Hinv.
  assert (timerInv (resetTypingTimer (saveToHistory sn st))) as Hinv'.
  { apply timerInv_resetTypingTimer. by apply (timerInv_ext st). }
  unfold timerInv in Hinv'. by rewrite Hr in Hinv'.
Qed.

Lemma selectedNote_ext st st' :
  notes st' = notes st -> selectedNoteId st' = selectedNoteId st ->
  selectedNote st' = selectedNote st.
Proof. intros Hn Hsel. unfold selectedNote. by rewrite Hn, Hsel. Qed.

(** X23. An AI action is a step of the history of its own: when it starts,
    the snapshot of the note is put on [past], [future] is emptied and
    the typing session is ended, whether the call succeeds or not. When
    the result has been applied, an undo gives the note the title and
    content it had before the action. When the call fails, the notes are
    as before, and the next undo restores a snapshot equal to the note. *)
Theorem ai_action_is_undoable st sn :
  selectedNote st = Some sn ->
  typingTimeoutRef (handleAiAction_start st) = None /\
  notes (handleAiAction_start st) = notes st /\
  history (handleAiAction_start st) =
    <[Note.id sn := mkHistory (past (getHistory (Note.id sn) st) ++ [snapshotOf sn]) []]>
      (history st) /\
  (forall action prompt result u now now',
     aiActionUpdates action prompt sn result = Some u ->
     selectedNote (handleAiAction_finish action prompt sn (Some result) now
                     (handleAiAction_start st))
       = Some (applyUpdates sn u now) /\
     cursorOf (handleUndo now'
                 (handleAiAction_finish action prompt sn (Some result) now
                    (handleAiAction_start st)))
       = Some (mkCursor (past (getHistory (Note.id sn) st)) (snapshotOf sn)
                        [snapshotOf (applyUpdates sn u now)])) /\
  (forall action prompt now now',
     handleAiAction_finish action prompt sn None now (handleAiAction_start st)
       = handleAiAction_start st /\
     cursorOf (handleUndo now' (handleAiAction_start st))
       = Some (mkCursor (past (getHistory (Note.id sn) st)) (snapshotOf sn)
                        [snapshotOf sn])).
Proof.
  intros Hs.
  destruct (handleAiAction_start_spec st sn Hs) as (Hr & Hn & Hsel & Hh & _).
  set (st1 := handleAiAction_start st) in *.
  assert (selectedNote st1 = Some sn) as Hs1 by (by rewrite (selectedNote_ext st)).
  assert (cursorOf st1 = Some (mkCursor (past (getHistory (Note.id sn) st) ++ [snapshotOf sn])
                                        (snapshotOf sn) [])) as Hc1.
  { unfold cursorOf. rewrite Hs1. unfold getHistory at 1 2. by rewrite Hh, lookup_insert_eq. }
  split_and!; try done.
  - intros action prompt result u now now' Hu. unfold handleAiAction_finish. rewrite Hu.
    split; [by apply selectedNote_updateNoteState|].
    rewrite cursorOf_handleUndo.
    assert (cursorOf (updateNoteState (Note.id sn) u now st1)
            = Some (mkCursor (past (getHistory (Note.id sn) st) ++ [snapshotOf sn])
                             (snapshotOf (applyUpdates sn u now)) [])) as ->.
    { unfold cursorOf. rewrite selectedNote_updateNoteState by done.
      unfold getHistory at 1 2. simpl. by rewrite Hh, lookup_insert_eq. }
    simpl. f_equal. by apply undoCursor_snoc.
  - intros action prompt now now'. split; [done|].
    rewrite cursorOf_handleUndo, Hc1. simpl. f_equal. by apply undoCursor_snoc.
Qed.

Lemma ai_action_is_undoable_witness :
  cursorOf (handleUndo 40
              (handleAiAction_finish FIX_GRAMMAR None doc1 (Some "Fixed") 30
                 (handleAiAction_start scenario0)))
  = Some (mkCursor [] (mkSnapshot "T" "C") [mkSnapshot "T" "Fixed"]).
Proof.
  destruct (ai_action_is_undoable scenario0 doc1 eq_refl) as (_ & _ & _ & H & _).
  destruct (H FIX_GRAMMAR None "Fixed" (mkUpdates None (Some "Fixed") None None) 30%Z 40%Z
              eq_refl) as [_ Hundo].
  exact Hundo.
Defined.

Lemma find_map_other i j (g : Note.t -> Note.t) (l : list Note.t) :
  i <> j ->
  (forall m, Note.id (g m) = Note.id m) ->
  List.find (fun m => bool_decide (Note.id m = i))
    (map (fun m => if bool_decide (Note.id m = j) then g m else m) l)
  = List.find (fun m => bool_decide (Note.id m = i)) l.
Proof.
  intros Hij Hg. induction l as [|m l IH]; simpl; [done|].
  destruct (bool_decide (Note.id m = j)) eqn:Ej.
  - apply bool_decide_eq_true in Ej. rewrite Hg.
    rewrite bool_decide_eq_false_2 by congruence. exact IH.
  - destruct (bool_decide (Note.id m = i)); [done|exact IH].
Qed.

Lemma selectedNote_updateNoteState_other st cur j u now :
  selectedNote st = Some cur -> Note.id cur <> j ->
  selectedNote (updateNoteState j u now st) = Some cur.
Proof.
  intros Hs Hne. pose proof (selectedNote_id _ _ Hs) as Hid.
  unfold selectedNote in *. simpl. rewrite Hid in *.
  by rewrite (find_map_other _ j (fun m => applyUpdates m u now)).
Qed.

(** X24. The result of an AI action is applied to the notes of the id that
    was selected when the action started, whichever note is selected
    when the result arrives, and with the content that the captured note
    had at the start: a summary, a continuation or an appended custom
    result is put after the content of that time, and a correction or a
    replacing custom result takes its place, so what was typed into the
    note while the call was pending is overwritten; a new title leaves
    the content as it is. The other notes, the note selected if it is
    another one, and the history are kept; a custom action without a
    prompt changes nothing. *)
Theorem ai_action_uses_captured_note sn result now st :
  (forall prompt,
     notes (handleAiAction_finish SUMMARIZE prompt sn (Some result) now st) =
       map (fun n => if bool_decide (Note.id n = Note.id sn)
                     then Note.mk (Note.id n) (Note.title n)
                            (String.append (Note.content sn)
                               (String.append SUMMARY_HEADING result))
                            (Note.excerpt n) now (Note.createdAt n) (Note.isFavorite n)
                     else n) (notes st) /\
     notes (handleAiAction_finish CONTINUE_WRITING prompt sn (Some result) now st) =
       map (fun n => if bool_decide (Note.id n = Note.id sn)
                     then Note.mk (Note.id n) (Note.title n)
                            (String.append (Note.content sn) (String.append " " result))
                            (Note.excerpt n) now (Note.createdAt n) (Note.isFavorite n)
                     else n) (notes st) /\
     notes (handleAiAction_finish FIX_GRAMMAR prompt sn (Some result) now st) =
       map (fun n => if bool_decide (Note.id n = Note.id sn)
                     then Note.mk (Note.id n) (Note.title n) result
                            (Note.excerpt n) now (Note.createdAt n) (Note.isFavorite n)
                     else n) (notes st) /\
     notes (handleAiAction_finish GENERATE_TITLE prompt sn (Some result) now st) =
       map (fun n => if bool_decide (Note.id n = Note.id sn)
                     then Note.mk (Note.id n) result (Note.content n)
                            (Note.excerpt n) now (Note.createdAt n) (Note.isFavorite n)
                     else n) (notes st)) /\
  (forall pid pname ptemplate,
     notes (handleAiAction_finish CUSTOM
              (Some (CustomPrompt.mk pid pname ptemplate ReplaceContent)) sn (Some result)
              now st) =
       map (fun n => if bool_decide (Note.id n = Note.id sn)
                     then Note.mk (Note.id n) (Note.title n) result
                            (Note.excerpt n) now (Note.createdAt n) (Note.isFavorite n)
                     else n) (notes st) /\
     notes (handleAiAction_finish CUSTOM
              (Some (CustomPrompt.mk pid pname ptemplate AppendContent)) sn (Some result)
              now st) =
       map (fun n => if bool_decide (Note.id n = Note.id sn)
                     then Note.mk (Note.id n) (Note.title n)
                            (String.append (Note.content sn)
                               (String.append LF (String.append LF result)))
                            (Note.excerpt n) now (Note.createdAt n) (Note.isFavorite n)
                     else n) (notes st)) /\
  handleAiAction_finish CUSTOM None sn (Some result) now st = st /\
  (forall action prompt cur,
     selectedNote st = Some cur -> Note.id cur <> Note.id sn ->
     selectedNote (handleAiAction_finish action prompt sn (Some result) now st) = Some cur) /\
  (forall action prompt,
     history (handleAiAction_finish action prompt sn (Some result) now st) = history st /\
     selectedNoteId (handleAiAction_finish action prompt sn (Some result) now st)
       = selectedNoteId st /\
     typingTimeoutRef (handleAiAction_finish action prompt sn (Some result) now st)
       = typingTimeoutRef st).
Proof.
  split_and!.
  - intros prompt. by split_and!.
  - intros pid pname ptemplate. by split_and!.
  - done.
  - intros action prompt cur Hs Hne. unfold handleAiAction_finish.
    destruct (aiActionUpdates action prompt sn result); [|done].
    by apply selectedNote_updateNoteState_other.
  - intros action prompt. unfold handleAiAction_finish.
    by destruct (aiActionUpdates action prompt sn result).
Qed.

Lemma ai_action_uses_captured_note_witness :
  let st := setSelectedNoteId (Some "doc2") scenario_two in
  selectedNote (handleAiAction_finish CONTINUE_WRITING None doc1 (Some "more") 30 st)
    = Some (Note.mk "doc2" "U" "D" "D" 0 0 false) /\
  Note.content <$>
    notes (handleAiAction_finish CONTINUE_WRITING None doc1 (Some "more") 30 st)
    = ["C more"; "D"].
Proof.
  intros st.
  destruct (ai_action_uses_captured_note doc1 "more" 30 st) as (Hn & _ & _ & Hsel & _).
  split.
  - apply Hsel; [reflexivity|discriminate].
  - destruct (Hn None) as (_ & -> & _). reflexivity.
Defined.
